(** * kuma-proxy-checker: a model of [main.py] and its properties

    The program loads a JSON configuration, probes every configured proxy
    with a bounded retry loop and pushes one status message per proxy to an
    Uptime Kuma endpoint.  This file embeds [main.py] function by function:

    - [Py]       the Python values and built-ins the program relies on
                 (text, exceptions, parsed JSON, [int()], [float()]);
    - the two dataclasses [ProxyTarget] and [AppConfig];
    - [validate_proxy_url] and [load_config];
    - a small state-and-exception monad [M] over a [World] that holds the
      answers of the network and the trace of what the program did;
    - [test_once], [test_with_retries], [send] and [check_target];
    - the coroutines of a cycle as [Task]s that the event loop steps in any
      order, [asyncio.gather] over them, [run_cycle], [run] and [main].

    Text is a Rocq [string] read as the UTF-8 bytes of the Python [str]. *)

From Stdlib Require Import ZArith String Ascii List SpecFloat Lia Bool.
From stdpp Require Import base strings gmap list pretty.

Set Warnings "-register-all".
Open Scope Z_scope.

(** ** Python values and built-ins *)

Module Py.

(** *** Text *)

(** Code points below 128 for which [str.isspace] holds:
    TAB, LF, VT, FF, CR, FS, GS, RS, US and SPACE. *)
Definition ascii_space (n : N) : bool :=
  ((9 <=? n) && (n <=? 13) || (28 <=? n) && (n <=? 32))%N.

(** The two-byte encodings of U+0085 and U+00A0. *)
Definition space2 (a b : N) : bool :=
  ((a =? 194) && ((b =? 133) || (b =? 160)))%N.

(** The three-byte encodings of U+1680, U+2000..U+200A, U+2028, U+2029,
    U+202F, U+205F and U+3000. *)
Definition space3 (a b c : N) : bool :=
  ((a =? 225) && (b =? 154) && (c =? 128)
   || (a =? 226) && (b =? 128)
      && ((128 <=? c) && (c <=? 138) || (c =? 168) || (c =? 169) || (c =? 175))
   || (a =? 226) && (b =? 129) && (c =? 159)
   || (a =? 227) && (b =? 128) && (c =? 128))%N.

(** [s.lstrip()]: drop the leading white space characters. *)
Fixpoint lstrip (s : string) : string :=
  match s with
  | EmptyString => EmptyString
  | String c1 s1 =>
    if ascii_space (N_of_ascii c1) then lstrip s1
    else
      match s1 with
      | EmptyString => s
      | String c2 s2 =>
        if space2 (N_of_ascii c1) (N_of_ascii c2) then lstrip s2
        else
          match s2 with
          | EmptyString => s
          | String c3 s3 =>
            if space3 (N_of_ascii c1) (N_of_ascii c2) (N_of_ascii c3)
            then lstrip s3
            else s
          end
      end
  end.

(** Whether [s.strip()] is the empty text.  [strip] removes white space at both ends, so its
    result is empty exactly when the text is white space throughout, which
    is when removing the leading white space already leaves nothing. *)
Definition strip_is_empty (s : string) : bool := String.eqb (lstrip s) EmptyString.

(** Truth value of a [str]: non-empty. *)
Definition truthy_str (s : string) : bool := negb (String.eqb s EmptyString).

(** [s.lower()] on text made of ASCII characters, the only text a URL
    scheme can hold: [urlsplit] accepts a scheme only when every character
    is an ASCII letter, a digit, [+], [-] or [.]. *)
Definition lower_ascii (c : ascii) : ascii :=
  let n := N_of_ascii c in
  if ((65 <=? n) && (n <=? 90))%N then ascii_of_N (n + 32) else c.

Fixpoint lower (s : string) : string :=
  match s with
  | EmptyString => EmptyString
  | String c s' => String (lower_ascii c) (lower s')
  end.

(** [str(n)] and [f"{n}"] for an [int]: decimal digits, [-] when negative. *)
Definition str_int (n : Z) : string := pretty n.

(** *** Exceptions *)

(** The exception classes that occur, each with its [str(e)].
    [TransportError] stands for whatever [httpx] raises while a request is
    under way (connect error, timeout, TLS failure, proxy rejection, HTTP
    status error); all of them derive from [Exception]. *)
Inductive exn :=
  | ValueError (msg : string)
  | TypeError (msg : string)
  | OverflowError (msg : string)
  | TransportError (msg : string).

Definition str_exn (e : exn) : string :=
  match e with
  | ValueError m | TypeError m | OverflowError m | TransportError m => m
  end.

(** *** Floats *)

(** A Python [float] is an IEEE 754 binary64 number. *)
Definition float := spec_float.

Definition prec : Z := 53.
Definition emax : Z := 1024.

(** [float(n)] for an [int]: round to nearest, ties to even; an [int] that
    rounds beyond the largest finite float raises [OverflowError]. *)
Definition float_of_int (n : Z) : exn + float :=
  match binary_normalize prec emax n 0 false with
  | S754_infinity _ => inl (OverflowError "int too large to convert to float")
  | f => inr f
  end.

(** [int(x)] for a [float]: truncate towards zero; not a number and the
    infinities raise. *)
Definition int_of_float (x : float) : exn + Z :=
  match x with
  | S754_zero _ => inr 0
  | S754_nan => inl (ValueError "cannot convert float NaN to integer")
  | S754_infinity _ =>
    inl (OverflowError "cannot convert float infinity to integer")
  | S754_finite s m e =>
    let a := if (0 <=? e) then Z.pos m * 2 ^ e else Z.pos m / 2 ^ (- e) in
    inr (if s then - a else a)
  end.

(** *** Parsed JSON *)

(** What [json.load] returns: [None], [bool], [int], [float], [str],
    [list] and [dict] with [str] keys. *)
Inductive json :=
  | JNull
  | JBool (b : bool)
  | JInt (z : Z)
  | JFloat (f : float)
  | JStr (s : string)
  | JArr (l : list json)
  | JObj (m : gmap string json).

(** [type(v).__name__]. *)
Definition type_name (v : json) : string :=
  match v with
  | JNull => "NoneType"
  | JBool _ => "bool"
  | JInt _ => "int"
  | JFloat _ => "float"
  | JStr _ => "str"
  | JArr _ => "list"
  | JObj _ => "dict"
  end.

(** *** Library routines that read text *)

(** Three routines of the Python library turn text into a value; the
    program's behaviour is stated for every behaviour they may have.
    - [urlparse_scheme p] is [urlparse(p).scheme], or the exception
      [urlparse] raises on [p];
    - [int_of_str s] is [int(s)];
    - [float_of_str s] is [float(s)]. *)
Class Library := {
  urlparse_scheme : string -> exn + string;
  int_of_str : string -> exn + Z;
  float_of_str : string -> exn + float
}.

Section Builtins.
Context `{Library}.

(** [int(v)] for a parsed JSON value; [bool] is a subclass of [int]. *)
Definition py_int (v : json) : exn + Z :=
  match v with
  | JInt z => inr z
  | JBool b => inr (if b then 1 else 0)
  | JFloat f => int_of_float f
  | JStr s => int_of_str s
  | JNull | JArr _ | JObj _ =>
    inl (TypeError
      ("int() argument must be a string, a bytes-like object or a real number, not '"
       +:+ type_name v +:+ "'"))
  end.

(** [float(v)] for a parsed JSON value. *)
Definition py_float (v : json) : exn + float :=
  match v with
  | JFloat f => inr f
  | JInt z => float_of_int z
  | JBool b => float_of_int (if b then 1 else 0)
  | JStr s => float_of_str s
  | JNull | JArr _ | JObj _ =>
    inl (TypeError
      ("float() argument must be a string or a real number, not '"
       +:+ type_name v +:+ "'"))
  end.

End Builtins.

End Py.

Import Py.

(** ** Models *)

(** [class ProxyTarget], with the field types the dataclass declares. *)
Record ProxyTarget := {
  proxy : string;
  push_url : string;
  remark : option string
}.

(** [class AppConfig]. *)
Record AppConfig := {
  test_url : string;
  expected_status : Z;
  retries : Z;
  timeout_seconds : float;
  retry_delay_seconds : float;
  interval_minutes : Z;
  targets : list ProxyTarget
}.

(** ** Config loading *)

(** The outcome of loading a document.  The dataclasses declare [str]
    fields, and [load_config] stores [test_url], [push_url] and [remark]
    as the document has them, whatever their JSON type; it also indexes the
    document, its [targets] and each target as a [dict], a [list] and a
    [dict].  [Unshaped] marks a document on which one of these values has
    another JSON type: the model follows the declared types and does not
    trace the code there. *)
Inductive loaded (A : Type) :=
  | Loaded (a : A)
  | Raised (e : exn)
  | Unshaped.
Arguments Loaded {A} a.
Arguments Raised {A} e.
Arguments Unshaped {A}.

Definition load_bind {A B} (c : loaded A) (k : A -> loaded B) : loaded B :=
  match c with
  | Loaded a => k a
  | Raised e => Raised e
  | Unshaped => Unshaped
  end.

(** A built-in that returns or raises. *)
Definition call {A} (r : exn + A) : loaded A :=
  match r with
  | inl e => Raised e
  | inr a => Loaded a
  end.

(** A value stored in a field declared [str]. *)
Definition as_str (v : json) : loaded string :=
  match v with
  | JStr s => Loaded s
  | _ => Unshaped
  end.

Declare Scope load_scope.
Delimit Scope load_scope with load.
Notation "x <- c ;; k" := (load_bind c (fun x => k))
  (at level 100, c at next level, right associativity) : load_scope.
Notation "c ;;; k" := (load_bind c (fun _ => k))
  (at level 100, right associativity) : load_scope.

(** [ALLOWED_PROXY_SCHEMES]. *)
Definition ALLOWED_PROXY_SCHEMES : gset string :=
  {[ "http"; "https"; "socks4"; "socks5"; "socks5h" ]}.

(** The [required] list of [load_config]. *)
Definition required : list string :=
  [ "test_url"; "expected_status"; "retries"; "timeout_seconds";
    "retry_delay_seconds"; "interval_minutes"; "targets" ].

Section ConfigLoading.
Context `{Library}.
Open Scope load_scope.

(** [validate_proxy_url(proxy)]. *)
Definition validate_proxy_url (proxy : string) : exn + unit :=
  match urlparse_scheme proxy with
  | inl e => inl e
  | inr scheme =>
    if bool_decide (lower scheme ∈ ALLOWED_PROXY_SCHEMES) then inr tt
    else inl (ValueError ("Unsupported proxy scheme: " +:+ proxy))
  end.

(** [for key in required: if key not in raw: raise ValueError(...)]. *)
Fixpoint check_required (keys : list string) (raw : gmap string json)
  : loaded unit :=
  match keys with
  | [] => Loaded tt
  | key :: keys' =>
    match raw !! key with
    | None => Raised (ValueError ("Missing config field: " +:+ key))
    | Some _ => check_required keys' raw
    end
  end.

(** [item.get("remark")], then the normalisation of a blank remark. *)
Definition load_remark (item : gmap string json) : loaded (option string) :=
  match item !! "remark" with
  | None | Some JNull => Loaded None
  | Some (JStr s) => Loaded (if strip_is_empty s then None else Some s)
  | Some _ => Unshaped
  end.

(** The body of [for item in raw["targets"]]: the target built from [item]. *)
Definition load_target (item : json) : loaded ProxyTarget :=
  match item with
  | JObj item =>
    match item !! "proxy", item !! "push_url" with
    | Some p, Some u =>
      p <- as_str p;;
      call (validate_proxy_url p);;;
      r <- load_remark item;;
      u <- as_str u;;
      Loaded {| proxy := p; push_url := u; remark := r |}
    | _, _ => Raised (ValueError "Each target must contain proxy and push_url")
    end
  | _ => Unshaped
  end.

(** The loop over [raw["targets"]], appending to [targets]. *)
Fixpoint load_targets (items : list json) (targets : list ProxyTarget)
  : loaded (list ProxyTarget) :=
  match items with
  | [] => Loaded targets
  | item :: items' =>
    t <- load_target item;;
    load_targets items' (targets ++ [t])
  end.

(** [raw[key]] once [key in raw] has been checked. *)
Definition field (raw : gmap string json) (key : string) : json :=
  default JNull (raw !! key).

(** [load_config], from the value [json.load] returned. *)
Definition load_config (raw : json) : loaded AppConfig :=
  match raw with
  | JObj raw =>
    check_required required raw;;;
    match field raw "targets" with
    | JArr items =>
      targets <- load_targets items [];;
      match targets with
      | [] => Raised (ValueError "No targets defined")
      | _ :: _ =>
        url <- as_str (field raw "test_url");;
        status <- call (py_int (field raw "expected_status"));;
        n <- call (py_int (field raw "retries"));;
        timeout <- call (py_float (field raw "timeout_seconds"));;
        delay <- call (py_float (field raw "retry_delay_seconds"));;
        interval <- call (py_int (field raw "interval_minutes"));;
        Loaded {| test_url := url;
                  expected_status := status;
                  retries := n;
                  timeout_seconds := timeout;
                  retry_delay_seconds := delay;
                  interval_minutes := interval;
                  targets := targets |}
      end
    | _ => Unshaped
    end
  | _ => Unshaped
  end.

End ConfigLoading.

(** ** The world the program runs in *)

(** A value handed to a library call: a query parameter, a logging
    argument, a duration. *)
Inductive pyval :=
  | VNone
  | VStr (s : string)
  | VInt (z : Z)
  | VFloat (f : float).

(** What one GET through a proxy meets: a response, with its status code
    and the reading [int((time.perf_counter() - start) * 1000)] taken when
    it arrived, or an exception raised anywhere between opening the client
    and closing it. *)
Inductive ProbeReply :=
  | Responded (status_code : Z) (elapsed_ms : Z)
  | ProbeRaised (e : exn).

(** [int((time.perf_counter() - start) * 1000)], from the reading [start]
    taken before the request and the reading [finish] taken when the
    response is in. *)
Definition thousand : float := binary_normalize prec emax 1000 0 false.

Definition elapsed_ms (start finish : float) : exn + Z :=
  int_of_float (SFmul prec emax (SFsub prec emax finish start) thousand).


(** What one GET to a push URL meets: a response, with its status code and
    the text of the [HTTPStatusError] that [raise_for_status] builds for
    it when the code is not a success, or an exception. *)
Inductive PushReply :=
  | PushResponded (status_code : Z) (status_error : string)
  | PushRaised (e : exn).

Inductive Level := DEBUG | INFO | WARNING | ERROR.

(** What the program does to the outside: a GET attempted through a
    proxy, a GET to a push URL with its query parameters, a sleep, a log
    record. *)
Inductive Event :=
  | Get (proxy : string) (url : string) (timeout : float)
  | PushGet (push_url : string) (params : list (string * pyval))
  | Sleep (secs : pyval)
  | Log (lvl : Level) (fmt : string) (args : list pyval).

(** [net w i] is what the [i]-th next proxied GET will meet, [kuma w i]
    what the [i]-th next push will meet; [trace w] lists the events so
    far, oldest first. *)
Record World := {
  net : nat -> ProbeReply;
  kuma : nat -> PushReply;
  trace : list Event
}.

(** A coroutine: from a world, it returns a value or raises, and leaves a
    world. *)
Definition M (A : Type) : Type := World -> (exn + A) * World.

Definition ret {A} (a : A) : M A := fun w => (inr a, w).

Definition bind {A B} (c : M A) (k : A -> M B) : M B :=
  fun w =>
    match c w with
    | (inr a, w') => k a w'
    | (inl e, w') => (inl e, w')
    end.

Definition raise {A} (e : exn) : M A := fun w => (inl e, w).

(** [try: body  except Exception as e: handler(e)]. *)
Definition try_except {A} (body : M A) (handler : exn -> M A) : M A :=
  fun w =>
    match body w with
    | (inr a, w') => (inr a, w')
    | (inl e, w') => handler e w'
    end.

Declare Scope M_scope.
Delimit Scope M_scope with M.
Notation "x <- c ;; k" := (bind c (fun x => k))
  (at level 100, c at next level, right associativity) : M_scope.
Notation "c ;;; k" := (bind c (fun _ => k))
  (at level 100, right associativity) : M_scope.
Open Scope M_scope.

Definition emit (e : Event) : M unit :=
  fun w => (inr tt, {| net := net w; kuma := kuma w; trace := trace w ++ [e] |}).

(** [logging.basicConfig(level=logging.INFO)]: records below [INFO] are
    dropped. *)
Definition enabled (lvl : Level) : bool :=
  match lvl with
  | DEBUG => false
  | INFO | WARNING | ERROR => true
  end.

(** [logger.debug], [logger.info], [logger.warning], [logger.error]. *)
Definition logger (lvl : Level) (fmt : string) (args : list pyval) : M unit :=
  if enabled lvl then emit (Log lvl fmt args) else ret tt.

(** [await asyncio.sleep(secs)].  A delay that is not positive gives the
    event loop one turn.  A positive [int] is added to the clock of the
    loop, a [float], which raises [OverflowError] when the [int] is too
    large for one.  Otherwise the sleep is recorded and the coroutine
    goes on, as it does once the delay has passed; a [float] delay is
    taken to be finite. *)
Definition sleep (secs : pyval) : M unit :=
  match secs with
  | VInt z =>
    if z <=? 0 then emit (Sleep secs)
    else
      match float_of_int z with
      | inl e => raise e
      | inr _ => emit (Sleep secs)
      end
  | VNone | VStr _ | VFloat _ => emit (Sleep secs)
  end.

(** [async with httpx.AsyncClient(proxy=proxy, timeout=timeout,
    follow_redirects=True) as client: r = await client.get(url)],
    up to the measurement of the elapsed time. *)
Definition client_get (proxy url : string) (timeout : float) : M (Z * Z) :=
  fun w =>
    let w' := {| net := fun i => net w (S i);
                 kuma := kuma w;
                 trace := trace w ++ [Get proxy url timeout] |} in
    match net w O with
    | Responded code ms => (inr (code, ms), w')
    | ProbeRaised e => (inl e, w')
    end.

(** [async with httpx.AsyncClient(timeout=10) as client:
    r = await client.get(push_url, params=params); r.raise_for_status()].
    [raise_for_status] raises unless the status code is a success,
    200 to 299. *)
Definition push_get (push_url : string) (params : list (string * pyval))
  : M unit :=
  fun w =>
    let w' := {| net := net w;
                 kuma := fun i => kuma w (S i);
                 trace := trace w ++ [PushGet push_url params] |} in
    match kuma w O with
    | PushResponded code err =>
      if (200 <=? code) && (code <=? 299) then (inr tt, w')
      else (inl (TransportError err), w')
    | PushRaised e => (inl e, w')
    end.

(** ** Proxy tester *)

(** The result type of [test_once] and [test_with_retries]:
    [Tuple[bool, Optional[int], Optional[str]]]. *)
Definition result : Type := bool * option Z * option string.

(** Names for the three outcomes of one attempt. *)
Definition Success (latency_ms : Z) : result := (true, Some latency_ms, None).
Definition SoftFailure : result := (false, None, None).
Definition HardError (message : string) : result := (false, None, Some message).

(** Names for the three results of the retry driver. *)
Definition Up (latency_ms : Z) : result := (true, Some latency_ms, Some "OK").
Definition Down_ERROR (detail : string) : result := (false, None, Some detail).
Definition Down_FAILED : result := (false, None, Some "FAILED").

Definition of_ping (ping : option Z) : pyval :=
  match ping with
  | Some ms => VInt ms
  | None => VNone
  end.

Section ProxyTester.
Variable cfg : AppConfig.

(** [ProxyTester.test_once]. *)
Definition test_once (proxy : string) : M result :=
  try_except
    (r <- client_get proxy (test_url cfg) (timeout_seconds cfg);;
     let '(status_code, elapsed_ms) := r in
     if status_code =? expected_status cfg
     then ret (true, Some elapsed_ms, None)
     else ret (false, None, None))
    (fun e =>
       logger DEBUG "Proxy error %s → %s" [VStr proxy; VStr (str_exn e)];;;
       ret (false, None, Some (str_exn e))).

(** The [for attempt in range(1, self.cfg.retries + 1)] loop of
    [test_with_retries] with [n] rounds to go, and the code after it. *)
Fixpoint attempts (proxy name : string) (n : nat) (attempt : Z) : M result :=
  match n with
  | O =>
    logger ERROR "FAILED : %s : Proxy failed after retries %s"
           [VStr name; VStr proxy];;;
    ret (false, None, Some "FAILED")
  | S n' =>
    r <- test_once proxy;;
    let '(ok, ping, err) := r in
    match err with
    | Some err =>
      logger ERROR "ERROR : %s → %s" [VStr name; VStr err];;;
      ret (false, None, Some err)
    | None =>
      if ok : bool then
        logger INFO "OK : %s → Proxy OK %s (attempt %d) ping=%sms"
               [VStr name; VStr proxy; VInt attempt; of_ping ping];;;
        ret (true, ping, Some "OK")
      else
        logger WARNING "FAILED : %s : Proxy failed %s (%d/%d)"
               [VStr name; VStr proxy; VInt attempt; VInt (retries cfg)];;;
        (if attempt <? retries cfg
         then sleep (VFloat (retry_delay_seconds cfg))
         else ret tt);;;
        attempts proxy name n' (attempt + 1)
    end
  end.

(** [ProxyTester.test_with_retries]: [range(1, retries + 1)] has
    [retries] elements, none when [retries <= 0]. *)
Definition test_with_retries (proxy name : string) : M result :=
  attempts proxy name (Z.to_nat (retries cfg)) 1.

End ProxyTester.

(** ** Notifier *)

(** The [params] dictionary of [UptimeKumaNotifier.send], in the order
    its keys are written. *)
Definition push_params (status message : string) (ping : option Z)
  : list (string * pyval) :=
  [ ("status", VStr status);
    ("msg", VStr message);
    ("ping", match ping with Some ms => VInt ms | None => VStr EmptyString end) ].

(** [UptimeKumaNotifier.send]. *)
Definition send (push_url status message : string) (ping : option Z) : M unit :=
  let params := push_params status message ping in
  try_except
    (push_get push_url params;;;
     logger INFO "Push sent → %s" [VStr status])
    (fun e => logger ERROR "Push failed → %s" [VStr (str_exn e)]).

(** ** App *)

(** [f"{message}"] for an [Optional[str]]. *)
Definition format_opt (message : option string) : string :=
  match message with
  | Some m => m
  | None => "None"
  end.

(** The [identifier] of [check_target]:
    [target.remark if (target.remark and str(target.remark).strip())
     else target.proxy]. *)
Definition identifier (target : ProxyTarget) : string :=
  match remark target with
  | Some r =>
    if truthy_str r && negb (strip_is_empty r) then r else proxy target
  | None => proxy target
  end.

(** The [final_message] of [check_target]. *)
Definition final_message (id : string) (r : result) : string :=
  let '(ok, ping, message) := r in
  if ok : bool then
    let ping_str :=
      match ping with
      | Some ms => str_int ms +:+ " ms"
      | None => EmptyString
      end in
    "OK : " +:+ id +:+ " : OK (" +:+ ping_str +:+ ")"
  else if bool_decide (message = Some "FAILED") then
    "FAILED : " +:+ id +:+ " : FAILED"
  else
    "ERROR : " +:+ id +:+ " : " +:+ format_opt message.

Section App.
Variable cfg : AppConfig.

(** [ProxyMonitorApp.check_target]. *)
Definition check_target (target : ProxyTarget) : M unit :=
  let id := identifier target in
  r <- test_with_retries cfg (proxy target) id;;
  let '(ok, ping, _) := r in
  let status := if ok : bool then "up" else "down" in
  send (push_url target) status (final_message id r)
       (if ok then ping else None).

End App.

(** ** Coroutines and the event loop *)

(** A coroutine of a cycle as the event loop sees it: finished, or about
    to log a record, or about to perform one of the three operations it
    awaits (a GET through a proxy, a sleep, a GET to a push URL), with
    what it does once the operation has answered. *)
Inductive Task :=
  | Finished (r : exn + unit)
  | Logging (lvl : Level) (fmt : string) (args : list pyval) (next : Task)
  | AwaitGet (proxy url : string) (timeout : float)
             (resume : exn + Z * Z -> Task)
  | AwaitSleep (secs : pyval) (resume : exn + unit -> Task)
  | AwaitPush (push_url : string) (params : list (string * pyval))
              (resume : exn + unit -> Task).

(** One step of a coroutine: it logs the record it is at, or performs
    the operation it awaits and is suspended with the answer in hand.
    The event loop switches between coroutines where they await; the
    requests of [httpx] await more than once before and after the GET
    itself, so the records and the operations of different coroutines
    can follow each other in any order, and a step is one of either. *)
Definition turn (t : Task) (w : World) : Task * World :=
  match t with
  | Finished r => (Finished r, w)
  | Logging lvl fmt args next => (next, snd (logger lvl fmt args w))
  | AwaitGet proxy url timeout resume =>
    let (answer, w') := client_get proxy url timeout w in (resume answer, w')
  | AwaitSleep secs resume =>
    let (answer, w') := sleep secs w in (resume answer, w')
  | AwaitPush push_url params resume =>
    let (answer, w') := push_get push_url params w in (resume answer, w')
  end.

(** A coroutine run to its end with no other coroutine in between. *)
Fixpoint complete (t : Task) (w : World) : (exn + unit) * World :=
  match t with
  | Finished r => (r, w)
  | Logging lvl fmt args next => complete next (snd (logger lvl fmt args w))
  | AwaitGet proxy url timeout resume =>
    let (answer, w') := client_get proxy url timeout w in
    complete (resume answer) w'
  | AwaitSleep secs resume =>
    let (answer, w') := sleep secs w in complete (resume answer) w'
  | AwaitPush push_url params resume =>
    let (answer, w') := push_get push_url params w in
    complete (resume answer) w'
  end.

Section Coroutines.
Variable cfg : AppConfig.

(** [test_once] once its GET has answered: lines 129 to 136. *)
Definition classify (proxy : string) (answer : exn + Z * Z)
    (k : result -> Task) : Task :=
  match answer with
  | inr (status_code, elapsed_ms) =>
    if status_code =? expected_status cfg
    then k (true, Some elapsed_ms, None)
    else k (false, None, None)
  | inl e =>
    Logging DEBUG "Proxy error %s → %s" [VStr proxy; VStr (str_exn e)]
            (k (false, None, Some (str_exn e)))
  end.

(** [test_with_retries] as a coroutine: the loop of [attempts] with [n]
    rounds to go, suspended at each GET and each sleep; [k] is what
    awaits the result. *)
Fixpoint attempts_task (proxy name : string) (n : nat) (attempt : Z)
    (k : result -> Task) : Task :=
  match n with
  | O =>
    Logging ERROR "FAILED : %s : Proxy failed after retries %s"
            [VStr name; VStr proxy]
            (k (false, None, Some "FAILED"))
  | S n' =>
    AwaitGet proxy (test_url cfg) (timeout_seconds cfg) (fun answer =>
      classify proxy answer (fun r =>
        let '(ok, ping, err) := r in
        match err with
        | Some err =>
          Logging ERROR "ERROR : %s → %s" [VStr name; VStr err]
                  (k (false, None, Some err))
        | None =>
          if ok : bool then
            Logging INFO "OK : %s → Proxy OK %s (attempt %d) ping=%sms"
                    [VStr name; VStr proxy; VInt attempt; of_ping ping]
                    (k (true, ping, Some "OK"))
          else
            Logging WARNING "FAILED : %s : Proxy failed %s (%d/%d)"
                    [VStr name; VStr proxy; VInt attempt; VInt (retries cfg)]
                    (if attempt <? retries cfg
                     then
                       AwaitSleep (VFloat (retry_delay_seconds cfg))
                         (fun slept =>
                            match slept with
                            | inr _ => attempts_task proxy name n' (attempt + 1) k
                            | inl e => Finished (inl e)
                            end)
                     else attempts_task proxy name n' (attempt + 1) k)
        end))
  end.

(** [send] as a coroutine, suspended at its GET; [k] is what follows. *)
Definition send_task (push_url status message : string) (ping : option Z)
    (k : Task) : Task :=
  AwaitPush push_url (push_params status message ping) (fun answer =>
    match answer with
    | inr _ => Logging INFO "Push sent → %s" [VStr status] k
    | inl e => Logging ERROR "Push failed → %s" [VStr (str_exn e)] k
    end).

(** [check_target] as a coroutine. *)
Definition check_target_task (target : ProxyTarget) : Task :=
  let id := identifier target in
  attempts_task (proxy target) id (Z.to_nat (retries cfg)) 1 (fun r =>
    let '(ok, ping, _) := r in
    let status := if ok : bool then "up" else "down" in
    send_task (push_url target) status (final_message id r)
              (if ok then ping else None) (Finished (inr tt))).

End Coroutines.

(** The event loop lets the coroutines take turns: [turns sched tasks]
    lets the task at each index of [sched], in order, make one step; an
    index with no task is passed over, and a finished task stays as it
    is. *)
Fixpoint turns (sched : list nat) (tasks : list Task) (w : World)
  : list Task * World :=
  match sched with
  | [] => (tasks, w)
  | i :: sched' =>
    match tasks !! i with
    | Some t => let (t', w') := turn t w in turns sched' (<[i := t']> tasks) w'
    | None => turns sched' tasks w
    end
  end.

(** Each task run to its end, in the order of the list; an exception a
    task ends with is raised, and the tasks after it are not followed. *)
Fixpoint complete_all (tasks : list Task) : M unit :=
  match tasks with
  | [] => ret tt
  | t :: tasks' => complete t;;; complete_all tasks'
  end.

(** [await asyncio.gather] over the tasks.  The order in which the event
    loop resumes the tasks depends on when their requests and sleeps
    end; it is given here by [sched], which can be any list of task
    indices.  [gather] returns when every task has finished: the tasks
    that [sched] leaves unfinished are run to their end. *)
Definition gather (sched : list nat) (tasks : list Task) : M unit :=
  fun w => let (tasks', w') := turns sched tasks w in complete_all tasks' w'.

Section Loop.
Variable cfg : AppConfig.

(** [ProxyMonitorApp.run_cycle], under the schedule [sched]. *)
Definition run_cycle (sched : list nat) : M unit :=
  gather sched (map (check_target_task cfg) (targets cfg)).

(** [ProxyMonitorApp.run]: the [while True] loop, followed for at most
    [fuel] cycles; [None] when the loop is still going after that.
    [scheds i] is the schedule of the [i]-th cycle from here. *)
Fixpoint run (scheds : nat -> list nat) (run_once : bool) (fuel : nat)
    (w : World) : option ((exn + unit) * World) :=
  match fuel with
  | O => None
  | S fuel' =>
    match (logger INFO "Starting check cycle" [];;; run_cycle (scheds O)) w with
    | (inl e, w') => Some (inl e, w')
    | (inr _, w') =>
      if run_once || (interval_minutes cfg <=? 0) then Some (inr tt, w')
      else
        let sleep_s := interval_minutes cfg * 60 in
        match (logger INFO "Sleeping %d minutes" [VInt (interval_minutes cfg)];;;
               sleep (VInt sleep_s)) w' with
        | (inl e, w'') => Some (inl e, w'')
        | (inr _, w'') => run (fun i => scheds (S i)) run_once fuel' w''
        end
    end
  end.

End Loop.

(** ** Entry *)

(** [main], from the parsed document at [args.config] and the [--once]
    flag: the configuration is loaded first, and [app.run()] starts only
    with a loaded configuration. *)
Definition main `{Library} (raw : json) (scheds : nat -> list nat)
    (once : bool) (fuel : nat) (w : World)
  : loaded (option ((exn + unit) * World)) :=
  load_bind (load_config raw) (fun cfg => Loaded (run cfg scheds once fuel w)).

(** ** Reading a trace *)

Definition is_get (e : Event) : bool :=
  match e with Get _ _ _ => true | _ => false end.

(** The proxied GETs of a trace. *)
Definition gets (t : list Event) : list Event := List.filter is_get t.

(** The durations slept, in order. *)
Fixpoint sleeps (t : list Event) : list pyval :=
  match t with
  | [] => []
  | Sleep d :: t' => d :: sleeps t'
  | _ :: t' => sleeps t'
  end.

(** The pushes of a trace, in order. *)
Fixpoint pushes (t : list Event) : list (string * list (string * pyval)) :=
  match t with
  | [] => []
  | PushGet u ps :: t' => (u, ps) :: pushes t'
  | _ :: t' => pushes t'
  end.

(** A probe whose request completed with another status than the expected
    one. *)
Definition soft (cfg : AppConfig) (r : ProbeReply) : Prop :=
  exists code ms, r = Responded code ms /\ code <> expected_status cfg.

(** ** A library for the examples *)

Module Sample.

(** Decimal digits read from the left, [acc] holding the value so far. *)
Fixpoint digits (s : string) (acc : Z) : option Z :=
  match s with
  | EmptyString => Some acc
  | String c s' =>
    let n := Z.of_N (N_of_ascii c) in
    if (48 <=? n) && (n <=? 57) then digits s' (10 * acc + (n - 48)) else None
  end.

(** An optional sign followed by at least one digit. *)
Definition literal (s : string) : option Z :=
  match s with
  | EmptyString => None
  | String "-" (String c s') => Z.opp <$> digits (String c s') 0
  | String "+" (String c s') => digits (String c s') 0
  | String "-" EmptyString | String "+" EmptyString => None
  | _ => digits s 0
  end.

Definition scheme_char (c : ascii) : bool :=
  let n := N_of_ascii c in
  ((97 <=? n) && (n <=? 122) || (65 <=? n) && (n <=? 90)
   || (48 <=? n) && (n <=? 57) || (n =? 43) || (n =? 45) || (n =? 46))%N.

Definition alpha (c : ascii) : bool :=
  let n := N_of_ascii c in
  ((97 <=? n) && (n <=? 122) || (65 <=? n) && (n <=? 90))%N.

(** The text before the first colon when it is made of scheme characters,
    and nothing otherwise. *)
Fixpoint before_colon (s : string) : option string :=
  match s with
  | EmptyString => None
  | String c s' =>
    if (N_of_ascii c =? 58)%N then Some EmptyString
    else if scheme_char c then String c <$> before_colon s'
    else None
  end.

(** The scheme as [urlsplit] finds it in a URL free of control characters:
    the text before the first colon, lower-cased, when it starts with a
    letter and holds scheme characters only; no scheme otherwise. *)
Definition scheme_of (url : string) : string :=
  match url with
  | EmptyString => EmptyString
  | String c _ =>
    if alpha c then lower (default EmptyString (before_colon url))
    else EmptyString
  end.

(** The library on the documents of the examples below, whose URLs are
    plain and whose numeric text is a decimal integer or a word: a word is
    rejected with the [ValueError] of [int] and [float]. *)
#[export] Instance library : Library := {|
  urlparse_scheme url := inr (scheme_of url);
  int_of_str s :=
    match literal s with
    | Some z => inr z
    | None =>
      inl (ValueError ("invalid literal for int() with base 10: '" +:+ s +:+ "'"))
    end;
  float_of_str s :=
    match literal s with
    | Some z => float_of_int z
    | None => inl (ValueError ("could not convert string to float: '" +:+ s +:+ "'"))
    end
|}.

(** A target entry of a configuration document. *)
Definition entry (proxy_url push : string) : json :=
  JObj {[ "proxy" := JStr proxy_url; "push_url" := JStr push ]}.

(** A configuration document with [n] retries and the given targets. *)
Definition document (n : json) (entries : list json) : gmap string json :=
  {[ "test_url" := JStr "https://example.com/";
     "expected_status" := JInt 200;
     "retries" := n;
     "timeout_seconds" := JInt 10;
     "retry_delay_seconds" := JInt 2;
     "interval_minutes" := JInt 5;
     "targets" := JArr entries ]}.

Definition good_entry : json :=
  entry "socks5://10.0.0.1:1080" "https://kuma.example/api/push/abc".

Definition ten : float := S754_finite false 5629499534213120 (-49).
Definition two : float := S754_finite false 4503599627370496 (-51).


Definition target (name : option string) : ProxyTarget :=
  {| proxy := "socks5://10.0.0.1:1080";
     push_url := "https://kuma.example/api/push/abc";
     remark := name |}.

(** The configuration [document (JInt n) [entry ...]] loads to. *)
Definition config (n : Z) : AppConfig :=
  {| test_url := "https://example.com/";
     expected_status := 200;
     retries := n;
     timeout_seconds := ten;
     retry_delay_seconds := two;
     interval_minutes := 5;
     targets := [target None] |}.

(** A world whose proxied GETs meet [replies] in turn and time out after
    them, and whose pushes are all accepted. *)
Definition world (replies : list ProbeReply) : World :=
  {| net i := nth i replies (ProbeRaised (TransportError "timed out"));
     kuma _ := PushResponded 200 EmptyString;
     trace := [] |}.

End Sample.

(** ** Rounds of the retry loop *)

(** A queue of replies with its first [n] entries used up. *)
Fixpoint shift {A} (n : nat) (f : nat -> A) : nat -> A :=
  match n with
  | O => f
  | S n' => shift n' (fun i => f (S i))
  end.

(** The world after the events [δ], among them [n] proxied GETs and [p]
    pushes. *)
Definition advance (n p : nat) (δ : list Event) (w : World) : World :=
  {| net := shift n (net w); kuma := shift p (kuma w); trace := trace w ++ δ |}.

Section Rounds.
Variable cfg : AppConfig.
Variables proxy name : string.

Definition the_get : Event := Get proxy (test_url cfg) (timeout_seconds cfg).

(** The events of a round of the loop that ends in a soft failure. *)
Definition soft_round (attempt : Z) : list Event :=
  the_get
  :: Log WARNING "FAILED : %s : Proxy failed %s (%d/%d)"
         [VStr name; VStr proxy; VInt attempt; VInt (retries cfg)]
  :: (if attempt <? retries cfg
      then [Sleep (VFloat (retry_delay_seconds cfg))]
      else []).

(** The events of [k] such rounds in a row, the first one being round
    [attempt]. *)
Fixpoint soft_rounds (k : nat) (attempt : Z) : list Event :=
  match k with
  | O => []
  | S k' => soft_round attempt ++ soft_rounds k' (attempt + 1)
  end.

(** The events of a round that ends in a success, in a hard error, and
    the events after the last round. *)
Definition success_round (attempt ms : Z) : list Event :=
  [ the_get;
    Log INFO "OK : %s → Proxy OK %s (attempt %d) ping=%sms"
        [VStr name; VStr proxy; VInt attempt; VInt ms] ].

Definition error_round (msg : string) : list Event :=
  [ the_get; Log ERROR "ERROR : %s → %s" [VStr name; VStr msg] ].

Definition exhausted : list Event :=
  [ Log ERROR "FAILED : %s : Proxy failed after retries %s"
        [VStr name; VStr proxy] ].

End Rounds.

(** ** What a push leaves behind *)

(** The line [send] logs once the push has met [reply]. *)
Definition push_line (status : string) (reply : PushReply) : Event :=
  match reply with
  | PushResponded code err =>
    if (200 <=? code) && (code <=? 299)
    then Log INFO "Push sent → %s" [VStr status]
    else Log ERROR "Push failed → %s" [VStr err]
  | PushRaised e => Log ERROR "Push failed → %s" [VStr (str_exn e)]
  end.

(** The push [check_target] makes for [target] when the retry driver
    returned [r]: the URL and the query parameters. *)
Definition report (target : ProxyTarget) (r : result)
  : string * list (string * pyval) :=
  let '(ok, ping, _) := r in
  (push_url target,
   push_params (if ok : bool then "up" else "down")
               (final_message (identifier target) r)
               (if ok then ping else None)).

(** The status [check_target] reports for [r]. *)
Definition status_of (r : result) : string :=
  if fst (fst r) then "up" else "down".

(** A push that reports some result of the driver for [target]. *)
Definition reported (target : ProxyTarget) (p : string * list (string * pyval))
  : Prop :=
  exists r, p = report target r.

(** A duration that is the configured delay between attempts. *)
Definition retry_delay (cfg : AppConfig) (d : pyval) : Prop :=
  d = VFloat (retry_delay_seconds cfg).

(** ** Reading a configuration document *)

Definition present (raw : gmap string json) (key : string) : bool :=
  match raw !! key with
  | Some _ => true
  | None => false
  end.

(** A required field is absent. *)
Definition missing_required (raw : gmap string json) : bool :=
  negb (forallb (present raw) required).

(** The entries under [targets], when it is a list. *)
Definition entries (raw : gmap string json) : list json :=
  match raw !! "targets" with
  | Some (JArr items) => items
  | _ => []
  end.

(** The [targets] list is empty. *)
Definition no_targets (raw : gmap string json) : bool :=
  match entries raw with
  | [] => true
  | _ :: _ => false
  end.

(** A target lacks [proxy] or [push_url]. *)
Definition lacks_field (item : json) : bool :=
  match item with
  | JObj item => negb (present item "proxy" && present item "push_url")
  | _ => false
  end.

Definition raises {A} (r : exn + A) : bool :=
  match r with
  | inl _ => true
  | inr _ => false
  end.

(** [cfg] with another number of retries. *)
Definition with_retries (z : Z) (cfg : AppConfig) : AppConfig :=
  {| test_url := test_url cfg;
     expected_status := expected_status cfg;
     retries := z;
     timeout_seconds := timeout_seconds cfg;
     retry_delay_seconds := retry_delay_seconds cfg;
     interval_minutes := interval_minutes cfg;
     targets := targets cfg |}.

Section Documents.
Context `{Library}.

(** The scheme of a target's proxy URL, lower-cased, is outside the
    allow-list. *)
Definition scheme_outside (item : json) : bool :=
  match item with
  | JObj item =>
    match item !! "proxy" with
    | Some (JStr p) =>
      match urlparse_scheme p with
      | inr scheme => negb (bool_decide (lower scheme ∈ ALLOWED_PROXY_SCHEMES))
      | inl _ => false
      end
    | _ => false
    end
  | _ => false
  end.

(** [urlparse] raises on a target's proxy URL. *)
Definition unparsed (item : json) : bool :=
  match item with
  | JObj item =>
    match item !! "proxy" with
    | Some (JStr p) => raises (urlparse_scheme p)
    | _ => false
    end
  | _ => false
  end.

(** A target that [load_target] rejects. *)
Definition bad_entry (item : json) : bool :=
  lacks_field item || scheme_outside item || unparsed item.

(** [int()] or [float()] raises on one of the five numeric fields. *)
Definition bad_number (raw : gmap string json) : bool :=
  raises (py_int (field raw "expected_status"))
  || raises (py_int (field raw "retries"))
  || raises (py_float (field raw "timeout_seconds"))
  || raises (py_float (field raw "retry_delay_seconds"))
  || raises (py_int (field raw "interval_minutes")).

(** The conditions under which a document is said to be rejected: a
    required field is absent, the targets list is empty, some target
    lacks [proxy] or [push_url], or the scheme of some proxy URL is
    outside the allow-list. *)
Definition listed (raw : gmap string json) : bool :=
  missing_required raw
  || no_targets raw
  || existsb lacks_field (entries raw)
  || existsb scheme_outside (entries raw).

(** The conditions under which [load_config] raises. *)
Definition rejected (raw : gmap string json) : bool :=
  listed raw || existsb unparsed (entries raw) || bad_number raw.

(** The text fields of a document have the declared types. *)
Definition text_or_absent (v : option json) : bool :=
  match v with
  | None | Some (JStr _) => true
  | Some _ => false
  end.

Definition shaped_entry (item : json) : bool :=
  match item with
  | JObj item =>
    text_or_absent (item !! "proxy")
    && text_or_absent (item !! "push_url")
    && match item !! "remark" with
       | None | Some JNull | Some (JStr _) => true
       | Some _ => false
       end
  | _ => false
  end.

Definition shaped (raw : gmap string json) : bool :=
  text_or_absent (raw !! "test_url")
  && match raw !! "targets" with
     | None => true
     | Some (JArr items) => forallb shaped_entry items
     | Some _ => false
     end.

End Documents.

(** ** Reading a loaded configuration *)

(** The target [t] has the [proxy] and the [push_url] of the entry
    [item]. *)
Definition mirrors (item : json) (t : ProxyTarget) : Prop :=
  exists entry,
    item = JObj entry
    /\ entry !! "proxy" = Some (JStr (proxy t))
    /\ entry !! "push_url" = Some (JStr (push_url t)).

(** The scheme of the proxy URL [p], lower-cased, is in the allow-list. *)
Definition allowed_scheme `{Library} (p : string) : Prop :=
  exists scheme,
    urlparse_scheme p = inr scheme /\ lower scheme ∈ ALLOWED_PROXY_SCHEMES.

(** The remark of [t] is absent or not blank. *)
Definition clean_remark (t : ProxyTarget) : Prop :=
  match remark t with
  | Some r => strip_is_empty r = false
  | None => True
  end.

(** The query parameters of a push that reports a proxy up with latency
    [ms], and of one that reports it down with [message]. *)
Definition up_params (id : string) (ms : Z) : list (string * pyval) :=
  [ ("status", VStr "up");
    ("msg", VStr ("OK : " +:+ id +:+ " : OK (" +:+ str_int ms +:+ " ms)"));
    ("ping", VInt ms) ].

Definition down_params (message : string) : list (string * pyval) :=
  [ ("status", VStr "down");
    ("msg", VStr message);
    ("ping", VStr EmptyString) ].

(** The events that end an iteration of the run loop which goes on. *)
Definition pause (cfg : AppConfig) : list Event :=
  [ Log INFO "Sleeping %d minutes" [VInt (interval_minutes cfg)];
    Sleep (VInt (interval_minutes cfg * 60)) ].

(** ** The course of a coroutine *)

(** The world after the events [δ]: every GET and every push among them
    has used up one reply. *)
Definition after (δ : list Event) (w : World) : World :=
  advance (length (gets δ)) (length (pushes δ)) δ w.

(** Events among which there is no GET, no sleep and no push. *)
Definition quiet (δ : list Event) : Prop :=
  gets δ = [] /\ sleeps δ = [] /\ pushes δ = [].

(** A coroutine that has made its push: it logs and ends, with no
    exception. *)
Inductive closing : Task -> Prop :=
  | closing_finished : closing (Finished (inr tt))
  | closing_logging lvl fmt args t :
      closing t -> closing (Logging lvl fmt args t).

(** A coroutine that has yet to push for [target]: it makes at most [b]
    GETs, sleeps only for the retry delay and, before the next GET, at
    most [c] times, then makes one push, which reports some result for
    [target], and closes. *)
Inductive probing (cfg : AppConfig) (target : ProxyTarget)
  : nat -> nat -> Task -> Prop :=
  | probing_logging b c lvl fmt args t :
      probing cfg target b c t ->
      probing cfg target b c (Logging lvl fmt args t)
  | probing_get b c proxy url timeout resume :
      (forall answer, probing cfg target b 1 (resume answer)) ->
      probing cfg target (S b) c (AwaitGet proxy url timeout resume)
  | probing_sleep b c resume :
      probing cfg target b c (resume (inr tt)) ->
      probing cfg target b (S c)
        (AwaitSleep (VFloat (retry_delay_seconds cfg)) resume)
  | probing_push b c r resume :
      (forall answer, closing (resume answer)) ->
      probing cfg target b c
        (AwaitPush (fst (report target r)) (snd (report target r)) resume).

(** Where the coroutine [t] of [target] stands after [g] GETs, [s] sleeps
    and the pushes [ps]. *)
Inductive standing (cfg : AppConfig) (target : ProxyTarget)
  : Task -> nat -> nat -> list (string * list (string * pyval)) -> Prop :=
  | standing_probing t b c g s :
      probing cfg target b c t ->
      (g + b <= Z.to_nat (retries cfg))%nat -> (s + c <= g)%nat ->
      standing cfg target t g s []
  | standing_closing t r g s :
      closing t ->
      (g <= Z.to_nat (retries cfg))%nat -> (s <= g)%nat ->
      standing cfg target t g s [report target r].

(** Where the coroutines of a cycle stand, one per target: [g] GETs and
    [s] sleeps between them, and the pushes [ps], listed in the order of
    the targets. *)
Inductive cycle_inv (cfg : AppConfig)
  : list ProxyTarget -> list Task -> nat -> nat
    -> list (string * list (string * pyval)) -> Prop :=
  | cycle_inv_nil : cycle_inv cfg [] [] 0 0 []
  | cycle_inv_cons target targets t tasks g s ps g' s' ps' :
      standing cfg target t g s ps ->
      cycle_inv cfg targets tasks g' s' ps' ->
      cycle_inv cfg (target :: targets) (t :: tasks)
        (g + g') (s + s') (ps ++ ps').

(** * Properties *)

(** ** Worlds and traces *)

Lemma shift_spec {A} n (f : nat -> A) i : shift n f i = f (n + i)%nat.
Proof.
  revert f; induction n as [|n IH]; intros f; simpl; [reflexivity|].
  now rewrite IH.
Qed.

Lemma shift_shift {A} n m (f : nat -> A) : shift m (shift n f) = shift (n + m) f.
Proof. revert f; induction n as [|n IH]; intros f; simpl; auto. Qed.

Lemma advance_advance n p δ n' p' δ' w :
  advance n' p' δ' (advance n p δ w) = advance (n + n') (p + p') (δ ++ δ') w.
Proof.
  unfold advance; simpl.
  now rewrite !shift_shift, app_assoc.
Qed.

Lemma advance_id w : advance 0 0 [] w = w.
Proof. destruct w; unfold advance; simpl. now rewrite app_nil_r. Qed.

Lemma emit_spec e w : emit e w = (inr tt, advance 0 0 [e] w).
Proof. reflexivity. Qed.

Lemma gets_app t1 t2 : gets (t1 ++ t2) = gets t1 ++ gets t2.
Proof. unfold gets. apply List.filter_app. Qed.

Lemma sleeps_app t1 t2 : sleeps (t1 ++ t2) = sleeps t1 ++ sleeps t2.
Proof.
  induction t1 as [|e t1 IH]; simpl; [reflexivity|].
  destruct e; simpl; now rewrite ?IH.
Qed.

Lemma pushes_app t1 t2 : pushes (t1 ++ t2) = pushes t1 ++ pushes t2.
Proof.
  induction t1 as [|e t1 IH]; simpl; [reflexivity|].
  destruct e; simpl; now rewrite ?IH.
Qed.

(** ** One probe *)

Section TesterFacts.
Variable cfg : AppConfig.
Variables proxy name : string.

Lemma test_once_responded w code ms :
  net w O = Responded code ms ->
  test_once cfg proxy w =
    (inr (if code =? expected_status cfg then Success ms else SoftFailure),
     advance 1 0 [the_get cfg proxy] w).
Proof.
  intros Hnet. unfold test_once, try_except, bind, client_get.
  rewrite Hnet. simpl.
  destruct (code =? expected_status cfg); reflexivity.
Qed.

Lemma test_once_raised w e :
  net w O = ProbeRaised e ->
  test_once cfg proxy w =
    (inr (HardError (str_exn e)), advance 1 0 [the_get cfg proxy] w).
Proof.
  intros Hnet. unfold test_once, try_except, bind, client_get.
  rewrite Hnet. reflexivity.
Qed.

Lemma test_once_soft w :
  soft cfg (net w O) ->
  test_once cfg proxy w = (inr SoftFailure, advance 1 0 [the_get cfg proxy] w).
Proof.
  intros (code & ms & Hnet & Hne).
  rewrite (test_once_responded _ _ _ Hnet).
  apply Z.eqb_neq in Hne. now rewrite Hne.
Qed.

(** ** The retry loop, round by round *)

(** Runs the logging and sleeping steps of a round and compares the
    traces. *)
Ltac run_events :=
  unfold bind, logger, sleep, emit, ret, advance; simpl;
  now rewrite <- ?app_assoc.

Lemma attempts_exhausted attempt w :
  attempts cfg proxy name 0 attempt w =
    (inr Down_FAILED, advance 0 0 (exhausted proxy name) w).
Proof. reflexivity. Qed.

Lemma attempts_error n attempt w e :
  net w O = ProbeRaised e ->
  attempts cfg proxy name (S n) attempt w =
    (inr (Down_ERROR (str_exn e)),
     advance 1 0 (error_round cfg proxy name (str_exn e)) w).
Proof.
  intros Hnet. simpl. unfold bind at 1.
  rewrite (test_once_raised _ _ Hnet). simpl.
  run_events.
Qed.

Lemma attempts_success n attempt w ms :
  net w O = Responded (expected_status cfg) ms ->
  attempts cfg proxy name (S n) attempt w =
    (inr (Up ms), advance 1 0 (success_round cfg proxy name attempt ms) w).
Proof.
  intros Hnet. simpl. unfold bind at 1.
  rewrite (test_once_responded _ _ _ Hnet), Z.eqb_refl. simpl.
  run_events.
Qed.

Lemma attempts_soft n attempt w :
  soft cfg (net w O) ->
  attempts cfg proxy name (S n) attempt w =
    attempts cfg proxy name n (attempt + 1)
      (advance 1 0 (soft_round cfg proxy name attempt) w).
Proof.
  intros Hsoft. simpl. unfold bind at 1.
  rewrite (test_once_soft _ Hsoft). simpl.
  unfold soft_round.
  destruct (attempt <? retries cfg); run_events.
Qed.

Lemma attempts_soft_rounds k n attempt w :
  (forall i, (i < k)%nat -> soft cfg (net w i)) ->
  attempts cfg proxy name (k + n) attempt w =
    attempts cfg proxy name n (attempt + Z.of_nat k)
      (advance k 0 (soft_rounds cfg proxy name k attempt) w).
Proof.
  revert attempt w. induction k as [|k IH]; intros attempt w Hsoft.
  - simpl. now rewrite Z.add_0_r, advance_id.
  - change (S k + n)%nat with (S (k + n)).
    rewrite attempts_soft by (apply Hsoft; lia).
    rewrite IH.
    + rewrite advance_advance. simpl soft_rounds.
      now replace (attempt + 1 + Z.of_nat k) with (attempt + Z.of_nat (S k)) by lia.
    + intros i Hi. simpl. apply (Hsoft (S i)). lia.
Qed.

(** ** Counting in the rounds *)

Lemma gets_soft_rounds k attempt :
  length (gets (soft_rounds cfg proxy name k attempt)) = k.
Proof.
  revert attempt. induction k as [|k IH]; intros attempt; simpl; [reflexivity|].
  destruct (attempt <? retries cfg); simpl; now rewrite IH.
Qed.

(** Every round before the last one is followed by a delay. *)
Lemma sleeps_soft_rounds k attempt :
  attempt + Z.of_nat k <= retries cfg ->
  sleeps (soft_rounds cfg proxy name k attempt) =
    repeat (VFloat (retry_delay_seconds cfg)) k.
Proof.
  revert attempt. induction k as [|k IH]; intros attempt Hle; simpl; [reflexivity|].
  destruct (Z.ltb_spec attempt (retries cfg)); [|lia].
  simpl. rewrite IH by lia. reflexivity.
Qed.

(** The last round within the budget is not. *)
Lemma sleeps_last_round :
  sleeps (soft_round cfg proxy name (retries cfg)) = [].
Proof. unfold soft_round. now rewrite Z.ltb_irrefl. Qed.

End TesterFacts.

(** ** The probe and the retry driver *)


(** C1.  When the probe of attempt [k + 1] raises, the attempts before it
    having been soft failures, the retry driver returns
    [(False, None, str(e))], with the text of the exception, after exactly
    [k + 1] probes: it performs no further probe, however many attempts
    [retries] would still allow. *)
Theorem hard_error_ends_the_retries cfg proxy name w (k : nat) e :
  Z.of_nat k < retries cfg ->
  (forall i, (i < k)%nat -> soft cfg (net w i)) ->
  net w k = ProbeRaised e ->
  let δ := soft_rounds cfg proxy name k 1
           ++ error_round cfg proxy name (str_exn e) in
  test_with_retries cfg proxy name w
  = (inr (false, None, Some (str_exn e)), advance (S k) 0 δ w)
  /\ length (gets δ) = S k.
Proof.
  intros Hk Hsoft Hnet δ. split.
  - unfold test_with_retries.
    replace (Z.to_nat (retries cfg))
      with (k + S (Z.to_nat (retries cfg) - S k))%nat by lia.
    rewrite attempts_soft_rounds by assumption.
    rewrite (attempts_error _ _ _ _ _ _ e).
    + rewrite advance_advance. now rewrite !Nat.add_1_r.
    + simpl. now rewrite shift_spec, Nat.add_0_r.
  - unfold δ. rewrite gets_app, length_app, gets_soft_rounds. simpl. lia.
Qed.

Lemma soft_rounds_snoc cfg proxy name k attempt :
  soft_rounds cfg proxy name (S k) attempt
  = soft_rounds cfg proxy name k attempt
    ++ soft_round cfg proxy name (attempt + Z.of_nat k).
Proof.
  revert attempt. induction k as [|k IH]; intros attempt.
  - cbn [soft_rounds]. now rewrite Z.add_0_r, app_nil_r.
  - cbn [soft_rounds] in *. rewrite IH, <- app_assoc.
    now replace (attempt + 1 + Z.of_nat k) with (attempt + Z.of_nat (S k)) by lia.
Qed.

(** C5.  With [retries >= 1] and a soft failure on every one of the
    [retries] attempts, the retry driver returns [(False, None, "FAILED")]
    after exactly [retries] probes and exactly [retries - 1] delays of
    [retry_delay_seconds]; the last attempt is followed by its warning
    and the final error line, with no delay. *)
Theorem soft_failures_exhaust_the_retries cfg proxy name w :
  1 <= retries cfg ->
  (forall i, (i < Z.to_nat (retries cfg))%nat -> soft cfg (net w i)) ->
  let n := Z.to_nat (retries cfg) in
  let δ := soft_rounds cfg proxy name n 1 ++ exhausted proxy name in
  test_with_retries cfg proxy name w
  = (inr (false, None, Some "FAILED"), advance n 0 δ w)
  /\ Z.of_nat (length (gets δ)) = retries cfg
  /\ sleeps δ
     = repeat (VFloat (retry_delay_seconds cfg)) (Z.to_nat (retries cfg - 1))
  /\ δ = soft_rounds cfg proxy name (Z.to_nat (retries cfg - 1)) 1
         ++ [ the_get cfg proxy;
              Log WARNING "FAILED : %s : Proxy failed %s (%d/%d)"
                  [VStr name; VStr proxy; VInt (retries cfg); VInt (retries cfg)];
              Log ERROR "FAILED : %s : Proxy failed after retries %s"
                  [VStr name; VStr proxy] ].
Proof.
  intros Hpos Hsoft n δ.
  assert (Hsplit : δ = soft_rounds cfg proxy name (Z.to_nat (retries cfg - 1)) 1
                       ++ soft_round cfg proxy name (retries cfg)
                       ++ exhausted proxy name).
  { unfold δ, n.
    replace (Z.to_nat (retries cfg)) with (S (Z.to_nat (retries cfg - 1))) by lia.
    rewrite soft_rounds_snoc, <- app_assoc.
    now replace (1 + Z.of_nat (Z.to_nat (retries cfg - 1))) with (retries cfg) by lia. }
  split; [|split; [|split]].
  - unfold test_with_retries. fold n.
    replace n with (n + 0)%nat at 1 by lia.
    rewrite attempts_soft_rounds by assumption.
    rewrite attempts_exhausted, advance_advance.
    now rewrite !Nat.add_0_r.
  - unfold δ. rewrite gets_app, length_app, gets_soft_rounds. simpl. unfold n. lia.
  - rewrite Hsplit, !sleeps_app, sleeps_soft_rounds, sleeps_last_round by lia.
    simpl. now rewrite app_nil_r.
  - rewrite Hsplit. unfold soft_round. now rewrite Z.ltb_irrefl.
Qed.

(** C6.  When attempt [k + 1 <= retries] meets the expected status with
    latency [ms], the attempts before it having been soft failures, the
    retry driver returns [Up ms] after exactly [k + 1] probes and no
    further attempt is made; with [k + 1 = retries] this is the success on
    the last attempt allowed. *)
Theorem success_ends_the_retries cfg proxy name w (k : nat) ms :
  Z.of_nat (S k) <= retries cfg ->
  (forall i, (i < k)%nat -> soft cfg (net w i)) ->
  net w k = Responded (expected_status cfg) ms ->
  let δ := soft_rounds cfg proxy name k 1
           ++ success_round cfg proxy name (Z.of_nat (S k)) ms in
  test_with_retries cfg proxy name w = (inr (Up ms), advance (S k) 0 δ w)
  /\ length (gets δ) = S k.
Proof.
  intros Hk Hsoft Hnet δ. split.
  - unfold test_with_retries.
    replace (Z.to_nat (retries cfg))
      with (k + S (Z.to_nat (retries cfg) - S k))%nat by lia.
    rewrite attempts_soft_rounds by assumption.
    rewrite (attempts_success _ _ _ _ _ _ ms).
    + rewrite advance_advance, !Nat.add_1_r. unfold δ.
      now replace (1 + Z.of_nat k) with (Z.of_nat (S k)) by lia.
    + simpl. now rewrite shift_spec, Nat.add_0_r.
  - unfold δ. rewrite gets_app, length_app, gets_soft_rounds. simpl. lia.
Qed.

(** ** The notifier *)

Lemma send_spec push_url status message ping w :
  send push_url status message ping w
  = (inr tt,
     advance 0 1 [ PushGet push_url (push_params status message ping);
                   push_line status (kuma w O) ] w).
Proof.
  unfold send, try_except, bind, push_get, push_line, logger, emit.
  destruct (kuma w O) as [code err|e]; simpl.
  - destruct ((200 <=? code) && (code <=? 299)); simpl;
      unfold advance; simpl; now rewrite <- app_assoc.
  - unfold advance; simpl; now rewrite <- app_assoc.
Qed.

(** C8.  [send] never raises to its caller, whatever the push URL, the
    status, the message and the ping: it performs one GET, whose [ping]
    parameter is the integer when a ping is given and the empty text when
    it is not, logs one line, and returns, so that whatever follows it runs
    next.  A transport exception and a response outside 200..299 are both
    logged as a failed push, at ERROR level. *)
Theorem send_never_raises push_url status message ping w :
  let w' :=
    advance 0 1
      [ PushGet push_url
          [ ("status", VStr status);
            ("msg", VStr message);
            ("ping", match ping with
                     | Some ms => VInt ms
                     | None => VStr EmptyString
                     end) ];
        push_line status (kuma w O) ] w in
  send push_url status message ping w = (inr tt, w')
  /\ (forall A (next : M A),
        (send push_url status message ping;;; next) w = next w')
  /\ (forall e, kuma w O = PushRaised e ->
        push_line status (kuma w O)
        = Log ERROR "Push failed → %s" [VStr (str_exn e)])
  /\ (forall code err, kuma w O = PushResponded code err ->
        ~ (200 <= code <= 299) ->
        push_line status (kuma w O) = Log ERROR "Push failed → %s" [VStr err]).
Proof.
  intros w'. split; [|split; [|split]].
  - apply send_spec.
  - intros A next. unfold bind. now rewrite send_spec.
  - intros e ->. reflexivity.
  - intros code err -> Hcode. simpl.
    destruct (Z.leb_spec 200 code), (Z.leb_spec code 299); simpl;
      try reflexivity; lia.
Qed.

(** ** One target *)

(** The retry loop always returns a result; it pushes nothing, and sleeps
    for retry delays only. *)
Lemma attempts_returns cfg proxy name n attempt w :
  exists r k δ,
    attempts cfg proxy name n attempt w = (inr r, advance k 0 δ w)
    /\ pushes δ = []
    /\ Forall (retry_delay cfg) (sleeps δ).
Proof.
  revert attempt w. induction n as [|n IH]; intros attempt w.
  - exists Down_FAILED, O, (exhausted proxy name).
    split; [apply attempts_exhausted|]. split; [reflexivity|constructor].
  - destruct (net w O) as [code ms|e] eqn:Hnet.
    + destruct (Z.eq_dec code (expected_status cfg)) as [->|Hne].
      * exists (Up ms), 1%nat, (success_round cfg proxy name attempt ms).
        split; [now apply attempts_success|]. split; [reflexivity|constructor].
      * rewrite attempts_soft by (now exists code, ms).
        destruct (IH (attempt + 1)
                     (advance 1 0 (soft_round cfg proxy name attempt) w))
          as (r & k & δ & Heq & Hpush & Hsleep).
        exists r, (1 + k)%nat, (soft_round cfg proxy name attempt ++ δ).
        rewrite Heq, advance_advance. split; [reflexivity|].
        rewrite pushes_app, sleeps_app, Hpush. split.
        -- unfold soft_round. now destruct (attempt <? retries cfg).
        -- apply Forall_app. split; [|assumption].
           unfold soft_round.
           destruct (attempt <? retries cfg); simpl; repeat constructor.
    + exists (Down_ERROR (str_exn e)), 1%nat,
        (error_round cfg proxy name (str_exn e)).
      split; [now apply attempts_error|]. split; [reflexivity|constructor].
Qed.

Lemma check_target_after cfg target w r k δ :
  test_with_retries cfg (proxy target) (identifier target) w
  = (inr r, advance k 0 δ w) ->
  check_target cfg target w
  = (inr tt,
     advance k 1
       (δ ++ [ PushGet (fst (report target r)) (snd (report target r));
               push_line (status_of r) (kuma w O) ]) w).
Proof.
  intros Hdrv. unfold check_target, bind. rewrite Hdrv.
  destruct r as [[ok ping] message].
  rewrite send_spec, advance_advance. simpl.
  now rewrite Nat.add_0_r.
Qed.

(** [check_target] calls the driver once, gets one result from it, and
    pushes that result once. *)
Lemma check_target_reports_once cfg target w :
  exists r k δ,
    test_with_retries cfg (proxy target) (identifier target) w
    = (inr r, advance k 0 δ w)
    /\ check_target cfg target w
       = (inr tt,
          advance k 1
            (δ ++ [ PushGet (fst (report target r)) (snd (report target r));
                    push_line (status_of r) (kuma w O) ]) w)
    /\ pushes δ = []
    /\ Forall (retry_delay cfg) (sleeps δ).
Proof.
  destruct (attempts_returns cfg (proxy target) (identifier target)
              (Z.to_nat (retries cfg)) 1 w)
    as (r & k & δ & Heq & Hpush & Hsleep).
  exists r, k, δ. split; [exact Heq|].
  split; [now apply check_target_after|]. now split.
Qed.

Lemma pushes_report u ps status reply :
  pushes [PushGet u ps; push_line status reply] = [(u, ps)].
Proof.
  destruct reply as [code err|e]; simpl; [|reflexivity].
  now destruct ((200 <=? code) && (code <=? 299)).
Qed.

(** ** One cycle *)

Lemma after_after δ1 δ2 w : after δ2 (after δ1 w) = after (δ1 ++ δ2) w.
Proof.
  unfold after. rewrite advance_advance.
  now rewrite gets_app, pushes_app, !length_app.
Qed.

Lemma after_nil w : after [] w = w.
Proof. apply advance_id. Qed.

Lemma client_get_after proxy url timeout w :
  snd (client_get proxy url timeout w) = after [Get proxy url timeout] w.
Proof. unfold client_get. now destruct (net w O). Qed.

Lemma push_get_after u ps w :
  snd (push_get u ps w) = after [PushGet u ps] w.
Proof.
  unfold push_get. destruct (kuma w O) as [code err|e]; [|reflexivity].
  now destruct ((200 <=? code) && (code <=? 299)).
Qed.

Lemma logger_quiet lvl fmt args w :
  exists ε, snd (logger lvl fmt args w) = after ε w /\ quiet ε.
Proof.
  unfold logger. destruct (enabled lvl).
  - exists [Log lvl fmt args]. now repeat split.
  - exists []. simpl. rewrite after_nil. now repeat split.
Qed.

Lemma quiet_app ε1 ε2 : quiet ε1 -> quiet ε2 -> quiet (ε1 ++ ε2).
Proof.
  intros (Hg1 & Hs1 & Hp1) (Hg2 & Hs2 & Hp2). unfold quiet.
  now rewrite gets_app, sleeps_app, pushes_app, Hg1, Hg2, Hs1, Hs2, Hp1, Hp2.
Qed.

Section TaskFacts.
Variable cfg : AppConfig.

Lemma turn_closing t w :
  closing t ->
  exists ε t', turn t w = (t', after ε w) /\ closing t' /\ quiet ε.
Proof.
  intros [|lvl fmt args t' Hc].
  - exists [], (Finished (inr tt)). rewrite after_nil.
    split; [reflexivity|]. split; [constructor|now repeat split].
  - simpl. destruct (logger_quiet lvl fmt args w) as (ε & -> & Hq).
    now exists ε, t'.
Qed.

Lemma complete_closing t w :
  closing t ->
  exists ε, complete t w = (inr tt, after ε w) /\ quiet ε.
Proof.
  intros Hc. revert w. induction Hc as [|lvl fmt args t _ IH]; intros w.
  - exists []. rewrite after_nil. now repeat split.
  - simpl. destruct (logger_quiet lvl fmt args w) as (ε1 & -> & Hq1).
    destruct (IH (after ε1 w)) as (ε2 & -> & Hq2).
    exists (ε1 ++ ε2). rewrite after_after. split; [reflexivity|].
    now apply quiet_app.
Qed.

Lemma turn_probing target b c t w :
  probing cfg target b c t ->
  exists ε t',
    turn t w = (t', after ε w)
    /\ Forall (retry_delay cfg) (sleeps ε)
    /\ ((pushes ε = []
         /\ exists b' c',
              probing cfg target b' c' t'
              /\ (length (gets ε) + b' <= b)%nat
              /\ (length (sleeps ε) + c' <= c + length (gets ε))%nat)
        \/ (exists r,
              pushes ε = [report target r]
              /\ gets ε = [] /\ sleeps ε = [] /\ closing t')).
Proof.
  intros Hp0.
  destruct Hp0 as [b c lvl fmt args t Hp|b c proxy url timeout resume Hres
                  |b c resume Hres|b c r resume Hres].
  - simpl. destruct (logger_quiet lvl fmt args w) as (ε & -> & Hg & Hs & Hq).
    exists ε, t. rewrite Hg, Hs, Hq. split; [reflexivity|]. split; [constructor|].
    left. split; [reflexivity|]. exists b, c. split; [exact Hp|]. simpl. lia.
  - simpl. pose proof (client_get_after proxy url timeout w) as Hw.
    destruct (client_get proxy url timeout w) as [answer w']. simpl in Hw. subst w'.
    exists [Get proxy url timeout], (resume answer).
    split; [reflexivity|]. split; [constructor|]. left. split; [reflexivity|].
    exists b, 1%nat. split; [apply Hres|]. simpl. lia.
  - exists [Sleep (VFloat (retry_delay_seconds cfg))], (resume (inr tt)).
    split; [reflexivity|]. split; [repeat constructor|].
    left. split; [reflexivity|]. exists b, c. split; [exact Hres|]. simpl. lia.
  - simpl.
    pose proof (push_get_after (fst (report target r)) (snd (report target r)) w) as Hw.
    destruct (push_get (fst (report target r)) (snd (report target r)) w)
      as [answer w']. simpl in Hw. subst w'.
    eexists _, (resume answer). split; [reflexivity|]. split; [constructor|].
    right. exists r. simpl. destruct (report target r). now repeat split.
Qed.

Lemma complete_probing target b c t w :
  probing cfg target b c t ->
  exists ε r,
    complete t w = (inr tt, after ε w)
    /\ pushes ε = [report target r]
    /\ (length (gets ε) <= b)%nat
    /\ (length (sleeps ε) <= c + length (gets ε))%nat
    /\ Forall (retry_delay cfg) (sleeps ε).
Proof.
  intros Hp. revert w.
  induction Hp as [b c lvl fmt args t _ IH|b c proxy url timeout resume _ IH
                  |b c resume _ IH|b c r resume Hres]; intros w.
  - simpl. destruct (logger_quiet lvl fmt args w) as (ε1 & -> & Hg & Hs & Hq).
    destruct (IH (after ε1 w)) as (ε2 & r & -> & Hrest).
    exists (ε1 ++ ε2), r. rewrite after_after, gets_app, sleeps_app, pushes_app,
      Hg, Hs, Hq. simpl. now repeat split.
  - simpl. pose proof (client_get_after proxy url timeout w) as Hw.
    destruct (client_get proxy url timeout w) as [answer w']. simpl in Hw. subst w'.
    destruct (IH answer (after [Get proxy url timeout] w))
      as (ε & r & -> & Hpush & Hg & Hs & Hd).
    exists (Get proxy url timeout :: ε), r.
    rewrite after_after. simpl. repeat split; try assumption; lia.
  - change (complete (AwaitSleep (VFloat (retry_delay_seconds cfg)) resume) w)
      with (complete (resume (inr tt))
              (after [Sleep (VFloat (retry_delay_seconds cfg))] w)).
    destruct (IH (after [Sleep (VFloat (retry_delay_seconds cfg))] w))
      as (ε & r & -> & Hpush & Hg & Hs & Hd).
    exists (Sleep (VFloat (retry_delay_seconds cfg)) :: ε), r.
    rewrite after_after. simpl. repeat split; try assumption; try lia.
    constructor; [reflexivity|assumption].
  - simpl.
    pose proof (push_get_after (fst (report target r)) (snd (report target r)) w) as Hw.
    destruct (push_get (fst (report target r)) (snd (report target r)) w)
      as [answer w']. simpl in Hw. subst w'.
    destruct (complete_closing (resume answer)
                (after [PushGet (fst (report target r)) (snd (report target r))] w)
                (Hres answer)) as (ε & -> & Hg & Hs & Hq).
    exists (PushGet (fst (report target r)) (snd (report target r)) :: ε), r.
    rewrite after_after. simpl. rewrite Hq. fold (gets ε). rewrite Hg, Hs.
    destruct (report target r). simpl. repeat split; try lia. constructor.
Qed.

Lemma turn_standing target t g s ps w :
  standing cfg target t g s ps ->
  exists ε t',
    turn t w = (t', after ε w)
    /\ standing cfg target t' (g + length (gets ε)) (s + length (sleeps ε))
         (ps ++ pushes ε)
    /\ Forall (retry_delay cfg) (sleeps ε).
Proof.
  intros [t0 b c g0 s0 Hp Hg Hs|t0 r g0 s0 Hc Hg Hs].
  - destruct (turn_probing target b c t0 w Hp)
      as (ε & t' & Heq & Hd & [(Hpush & b' & c' & Hp' & Hg' & Hs')
                               |(r & Hpush & Hg' & Hs' & Hc)]).
    + exists ε, t'. split; [exact Heq|]. split; [|exact Hd].
      rewrite Hpush. apply (standing_probing _ _ _ b' c'); [exact Hp'|lia|lia].
    + exists ε, t'. split; [exact Heq|]. split; [|exact Hd].
      rewrite Hpush, Hg', Hs'. simpl. apply standing_closing; [exact Hc|lia|lia].
  - destruct (turn_closing t0 w Hc) as (ε & t' & Heq & Hc' & Hg' & Hs' & Hq).
    exists ε, t'. split; [exact Heq|].
    rewrite Hg', Hs', Hq. simpl. split; [|constructor].
    apply standing_closing; [exact Hc'|lia|lia].
Qed.

Lemma complete_standing target t g s ps w :
  standing cfg target t g s ps ->
  exists ε r,
    complete t w = (inr tt, after ε w)
    /\ ps ++ pushes ε = [report target r]
    /\ (g + length (gets ε) <= Z.to_nat (retries cfg))%nat
    /\ (s + length (sleeps ε) <= g + length (gets ε))%nat
    /\ Forall (retry_delay cfg) (sleeps ε).
Proof.
  intros [t0 b c g0 s0 Hp Hg Hs|t0 r g0 s0 Hc Hg Hs].
  - destruct (complete_probing target b c t0 w Hp)
      as (ε & r & Heq & Hpush & Hg' & Hs' & Hd).
    exists ε, r. split; [exact Heq|]. split; [exact Hpush|].
    split; [lia|]. split; [lia|exact Hd].
  - destruct (complete_closing t0 w Hc) as (ε & Heq & Hg' & Hs' & Hq).
    exists ε, r. split; [exact Heq|]. rewrite Hg', Hs', Hq. simpl.
    split; [reflexivity|]. split; [lia|]. split; [lia|constructor].
Qed.

End TaskFacts.

Section CycleFacts.
Variable cfg : AppConfig.

Lemma turn_cycle ts tasks G S P i t w :
  cycle_inv cfg ts tasks G S P ->
  tasks !! i = Some t ->
  exists ε t' P',
    turn t w = (t', after ε w)
    /\ cycle_inv cfg ts (<[i := t']> tasks)
         (G + length (gets ε)) (S + length (sleeps ε)) P'
    /\ P' ≡ₚ P ++ pushes ε
    /\ Forall (retry_delay cfg) (sleeps ε).
Proof.
  intros Hinv. revert i.
  induction Hinv as [|target ts t0 tasks g s ps g' s' ps' Hst Hinv IH];
    intros i Hi; [discriminate|].
  destruct i as [|i]; simpl in Hi.
  - injection Hi as ->.
    destruct (turn_standing cfg target t g s ps w Hst) as (ε & t' & Heq & Hst' & Hd).
    exists ε, t', ((ps ++ pushes ε) ++ ps'). split; [exact Heq|]. split; [|split].
    + replace (g + g' + length (gets ε))%nat with (g + length (gets ε) + g')%nat by lia.
      replace (s + s' + length (sleeps ε))%nat with (s + length (sleeps ε) + s')%nat by lia.
      simpl. now constructor.
    + rewrite <- !app_assoc. apply Permutation_app_head, Permutation_app_comm.
    + exact Hd.
  - destruct (IH i Hi) as (ε & t' & P' & Heq & Hinv' & Hperm & Hd).
    exists ε, t', (ps ++ P'). split; [exact Heq|]. split; [|split].
    + replace (g + g' + length (gets ε))%nat with (g + (g' + length (gets ε)))%nat by lia.
      replace (s + s' + length (sleeps ε))%nat with (s + (s' + length (sleeps ε)))%nat by lia.
      simpl. now constructor.
    + rewrite <- app_assoc. now apply Permutation_app_head.
    + exact Hd.
Qed.

Lemma turns_cycle sched ts tasks G S P w :
  cycle_inv cfg ts tasks G S P ->
  exists ε tasks' P',
    turns sched tasks w = (tasks', after ε w)
    /\ cycle_inv cfg ts tasks'
         (G + length (gets ε)) (S + length (sleeps ε)) P'
    /\ P' ≡ₚ P ++ pushes ε
    /\ Forall (retry_delay cfg) (sleeps ε).
Proof.
  revert tasks G S P w.
  induction sched as [|i sched IH]; intros tasks G S P w Hinv.
  - exists [], tasks, P. rewrite after_nil. simpl. rewrite !Nat.add_0_r, app_nil_r.
    now repeat split.
  - simpl. destruct (tasks !! i) as [t|] eqn:Hi; [|now apply IH].
    destruct (turn_cycle ts tasks G S P i t w Hinv Hi)
      as (ε1 & t' & P1 & -> & Hinv1 & Hperm1 & Hd1).
    destruct (IH _ _ _ _ (after ε1 w) Hinv1)
      as (ε2 & tasks' & P2 & -> & Hinv2 & Hperm2 & Hd2).
    exists (ε1 ++ ε2), tasks', P2.
    rewrite after_after, gets_app, sleeps_app, pushes_app, !length_app.
    split; [reflexivity|]. split; [|split].
    + now rewrite !Nat.add_assoc.
    + rewrite Hperm2, Hperm1. now rewrite <- app_assoc.
    + apply Forall_app. now split.
Qed.

Lemma complete_all_cycle ts tasks G S P w :
  cycle_inv cfg ts tasks G S P ->
  exists ε ps,
    complete_all tasks w = (inr tt, after ε w)
    /\ Forall2 reported ts ps
    /\ P ++ pushes ε ≡ₚ ps
    /\ (G + length (gets ε) <= length ts * Z.to_nat (retries cfg))%nat
    /\ (S + length (sleeps ε) <= G + length (gets ε))%nat
    /\ Forall (retry_delay cfg) (sleeps ε).
Proof.
  intros Hinv. revert w.
  induction Hinv as [|target ts t tasks g s ps g' s' ps' Hst _ IH]; intros w.
  - exists [], []. simpl. unfold ret. rewrite after_nil.
    repeat split; try constructor.
  - destruct (complete_standing cfg target t g s ps w Hst)
      as (ε1 & r & Heq1 & Hpush & Hg1 & Hs1 & Hd1).
    destruct (IH (after ε1 w)) as (ε2 & ps2 & Heq2 & Hall & Hperm & Hg2 & Hs2 & Hd2).
    exists (ε1 ++ ε2), (report target r :: ps2).
    split; [|split; [|split; [|split; [|split]]]].
    + simpl. unfold bind. now rewrite Heq1, Heq2, after_after.
    + constructor; [now exists r|exact Hall].
    + rewrite pushes_app.
      change (report target r :: ps2) with ([report target r] ++ ps2).
      rewrite <- Hpush, <- Hperm, <- !app_assoc.
      apply Permutation_app_head. rewrite !app_assoc.
      apply Permutation_app_tail, Permutation_app_comm.
    + rewrite gets_app, length_app. simpl. lia.
    + rewrite gets_app, sleeps_app, !length_app. lia.
    + rewrite sleeps_app. apply Forall_app. now split.
Qed.

Lemma gather_cycle sched ts tasks w :
  cycle_inv cfg ts tasks 0 0 [] ->
  exists δ ps,
    gather sched tasks w = (inr tt, after δ w)
    /\ Forall2 reported ts ps
    /\ pushes δ ≡ₚ ps
    /\ (length (gets δ) <= length ts * Z.to_nat (retries cfg))%nat
    /\ (length (sleeps δ) <= length (gets δ))%nat
    /\ Forall (retry_delay cfg) (sleeps δ).
Proof.
  intros Hinv. unfold gather.
  destruct (turns_cycle sched ts tasks 0 0 [] w Hinv)
    as (ε1 & tasks' & P1 & -> & Hinv1 & Hperm1 & Hd1).
  destruct (complete_all_cycle ts tasks' _ _ P1 (after ε1 w) Hinv1)
    as (ε2 & ps & Heq & Hall & Hperm & Hg & Hs & Hd2).
  exists (ε1 ++ ε2), ps. rewrite Heq, after_after.
  rewrite gets_app, sleeps_app, pushes_app, !length_app.
  split; [reflexivity|]. split; [exact Hall|]. split; [|split; [|split]].
  - rewrite <- Hperm, Hperm1. reflexivity.
  - simpl in Hg. exact Hg.
  - simpl in Hs. exact Hs.
  - apply Forall_app. now split.
Qed.

(** The coroutine of a target, as it starts. *)
Lemma attempts_task_probing target proxy name k :
  (forall r b c, probing cfg target b c (k r)) ->
  forall n attempt c, probing cfg target n c (attempts_task cfg proxy name n attempt k).
Proof.
  intros Hk. induction n as [|n IH]; intros attempt c; simpl.
  - constructor. apply Hk.
  - constructor. intros [e|[code ms]]; simpl.
    + do 2 constructor. apply Hk.
    + destruct (code =? expected_status cfg).
      * constructor. apply Hk.
      * constructor. destruct (attempt <? retries cfg); [|apply IH].
        constructor. apply IH.
Qed.

Lemma check_target_task_probing target :
  probing cfg target (Z.to_nat (retries cfg)) 0 (check_target_task cfg target).
Proof.
  unfold check_target_task. apply attempts_task_probing.
  intros [[ok ping] message] b c. unfold send_task.
  apply (probing_push cfg target b c (ok, ping, message)).
  intros [e|[]]; repeat constructor.
Qed.

Lemma cycle_starts ts :
  cycle_inv cfg ts (map (check_target_task cfg) ts) 0 0 [].
Proof.
  induction ts as [|t ts IH]; [constructor|].
  apply (cycle_inv_cons cfg t ts _ _ 0 0 [] 0 0 []); [|exact IH].
  apply (standing_probing cfg t _ (Z.to_nat (retries cfg)) 0).
  - apply check_target_task_probing.
  - lia.
  - lia.
Qed.

Lemma run_cycle_spec sched w :
  exists δ ps,
    run_cycle cfg sched w = (inr tt, after δ w)
    /\ Forall2 reported (targets cfg) ps
    /\ pushes δ ≡ₚ ps
    /\ (length (gets δ) <= length (targets cfg) * Z.to_nat (retries cfg))%nat
    /\ (length (sleeps δ) <= length (gets δ))%nat
    /\ Forall (retry_delay cfg) (sleeps δ).
Proof. apply gather_cycle, cycle_starts. Qed.

(** Run without interruption, the coroutines are the functions. *)
Lemma complete_attempts_task proxy name k n attempt w :
  complete (attempts_task cfg proxy name n attempt k) w
  = match attempts cfg proxy name n attempt w with
    | (inr r, w') => complete (k r) w'
    | (inl e, w') => (inl e, w')
    end.
Proof.
  revert attempt w. induction n as [|n IH]; intros attempt w.
  - reflexivity.
  - simpl. unfold bind at 1. unfold test_once, try_except, bind at 1.
    unfold client_get.
    destruct (net w O) as [code ms|e]; simpl.
    + destruct (code =? expected_status cfg); simpl; [reflexivity|].
      destruct (attempt <? retries cfg); simpl; apply IH.
    + reflexivity.
Qed.

Lemma complete_check_target_task target w :
  complete (check_target_task cfg target) w = check_target cfg target w.
Proof.
  unfold check_target_task, check_target, test_with_retries.
  rewrite complete_attempts_task. unfold bind at 1.
  destruct (attempts cfg (proxy target) (identifier target)
              (Z.to_nat (retries cfg)) 1 w) as [[e|[[ok ping] message]] w'];
    [reflexivity|].
  unfold send_task, send, try_except, bind. simpl.
  destruct (push_get _ _ w') as [[e|[]] w'']; reflexivity.
Qed.

End CycleFacts.

(** The world after a cycle, with its counts. *)
Lemma run_cycle_counts cfg sched w :
  exists n δ ps,
    run_cycle cfg sched w = (inr tt, advance n (length (targets cfg)) δ w)
    /\ length (gets δ) = n
    /\ Forall2 reported (targets cfg) ps
    /\ pushes δ ≡ₚ ps
    /\ length (pushes δ) = length (targets cfg)
    /\ (n <= length (targets cfg) * Z.to_nat (retries cfg))%nat
    /\ (length (sleeps δ) <= n)%nat
    /\ Forall (retry_delay cfg) (sleeps δ).
Proof.
  destruct (run_cycle_spec cfg sched w) as (δ & ps & Hrun & Hall & Hperm & Hg & Hs & Hd).
  assert (Hlen : length (pushes δ) = length (targets cfg)).
  { rewrite (Permutation_length Hperm). symmetry. eapply Forall2_length, Hall. }
  exists (length (gets δ)), δ, ps. rewrite Hrun. unfold after. rewrite Hlen.
  now repeat split.
Qed.

(** C4.  In a cycle every configured target gets exactly one result from
    the retry driver and exactly one push, whatever the number of probes
    and whatever the result: [check_target] calls the driver once and
    pushes the result it returned once; the coroutine of a target, when
    nothing runs in between, does what [check_target] does; and however
    the event loop lets the coroutines of a cycle take turns, the pushes
    of [run_cycle] are, in some order, one report for each target. *)
Theorem one_report_per_target cfg w :
  (forall target w0,
     exists r k δ,
       test_with_retries cfg (proxy target) (identifier target) w0
       = (inr r, advance k 0 δ w0)
       /\ pushes δ = []
       /\ exists δ',
            check_target cfg target w0 = (inr tt, advance k 1 δ' w0)
            /\ pushes δ' = [report target r])
  /\ (forall target w0,
        complete (check_target_task cfg target) w0 = check_target cfg target w0)
  /\ forall sched,
       exists n δ ps,
         run_cycle cfg sched w = (inr tt, advance n (length (targets cfg)) δ w)
         /\ Forall2 reported (targets cfg) ps
         /\ pushes δ ≡ₚ ps
         /\ length (pushes δ) = length (targets cfg).
Proof.
  split; [|split].
  - intros target w0.
    destruct (check_target_reports_once cfg target w0)
      as (r & k & δ & Hdrv & Hchk & Hpush & _).
    exists r, k, δ. split; [exact Hdrv|]. split; [exact Hpush|].
    eexists. split; [exact Hchk|].
    rewrite pushes_app, Hpush, pushes_report. simpl.
    now destruct (report target r).
  - intros target w0. apply complete_check_target_task.
  - intros sched.
    destruct (run_cycle_counts cfg sched w)
      as (n & δ & ps & Hrun & _ & Hall & Hperm & Hlen & _).
    exists n, δ, ps. now repeat split.
Qed.

(** ** The run loop *)

Lemma cycle_after_start cfg sched w :
  let start := Log INFO "Starting check cycle" [] in
  exists n δ,
    (logger INFO "Starting check cycle" [];;; run_cycle cfg sched) w
    = (inr tt, advance n (length (targets cfg)) (start :: δ) w)
    /\ run_cycle cfg sched (advance 0 0 [start] w)
       = (inr tt, advance n (length (targets cfg)) δ (advance 0 0 [start] w))
    /\ Forall (retry_delay cfg) (sleeps δ).
Proof.
  intros start.
  destruct (run_cycle_counts cfg sched (advance 0 0 [start] w))
    as (n & δ & ps & Hrun & _ & _ & _ & _ & _ & _ & Hsleep).
  exists n, δ. split; [|split; [exact Hrun|exact Hsleep]].
  unfold bind at 1.
  change (logger INFO "Starting check cycle" [] w)
    with (inr tt : exn + unit, advance 0 0 [start] w).
  cbv beta iota. now rewrite Hrun, advance_advance.
Qed.

(** C9.  With [interval_minutes <= 0] the run loop performs exactly one
    cycle and ends, whether or not the run-once flag is set and however
    the coroutines of the cycle take turns: what it does is the start
    line followed by the events of one [run_cycle], and the only sleeps
    among them are retry delays. *)
Theorem run_ends_after_one_cycle cfg scheds once fuel w :
  interval_minutes cfg <= 0 ->
  let start := Log INFO "Starting check cycle" [] in
  exists n δ,
    run cfg scheds once (S fuel) w
    = Some (inr tt, advance n (length (targets cfg)) (start :: δ) w)
    /\ run_cycle cfg (scheds O) (advance 0 0 [start] w)
       = (inr tt, advance n (length (targets cfg)) δ (advance 0 0 [start] w))
    /\ Forall (retry_delay cfg) (sleeps (start :: δ)).
Proof.
  intros Hint start.
  destruct (cycle_after_start cfg (scheds O) w) as (n & δ & Hcycle & Hrun & Hsleep).
  exists n, δ. split; [|split; [exact Hrun|exact Hsleep]].
  cbn [run]. rewrite Hcycle.
  apply Z.leb_le in Hint. now rewrite Hint, orb_true_r.
Qed.

(** ** The final message *)

Lemma identifier_spec target :
  identifier target
  = match remark target with
    | Some r => if strip_is_empty r then proxy target else r
    | None => proxy target
    end.
Proof.
  unfold identifier. destruct (remark target) as [r|]; [|reflexivity].
  destruct r as [|c r]; [reflexivity|]. simpl.
  now destruct (strip_is_empty (String c r)).
Qed.

Lemma append_assoc (a b c : string) : (a +:+ b) +:+ c = a +:+ (b +:+ c).
Proof.
  induction a as [|x a IH]; [reflexivity|].
  exact (f_equal (String x) IH).
Qed.

Lemma report_Up target ms :
  report target (Up ms)
  = (push_url target,
     [ ("status", VStr "up");
       ("msg", VStr ("OK : " +:+ identifier target
                     +:+ " : OK (" +:+ str_int ms +:+ " ms)"));
       ("ping", VInt ms) ]).
Proof.
  unfold report, Up, final_message. cbv zeta.
  now rewrite (append_assoc (str_int ms)).
Qed.

Lemma report_Down_FAILED target :
  report target Down_FAILED
  = (push_url target,
     [ ("status", VStr "down");
       ("msg", VStr ("FAILED : " +:+ identifier target +:+ " : FAILED"));
       ("ping", VStr EmptyString) ]).
Proof. reflexivity. Qed.

Lemma report_Down_ERROR target detail :
  detail <> "FAILED" ->
  report target (Down_ERROR detail)
  = (push_url target,
     [ ("status", VStr "down");
       ("msg", VStr ("ERROR : " +:+ identifier target +:+ " : " +:+ detail));
       ("ping", VStr EmptyString) ]).
Proof.
  intros Hne. unfold report, Down_ERROR, final_message.
  rewrite bool_decide_eq_false_2 by congruence. reflexivity.
Qed.

(** The text [FAILED] as error detail is told apart from nothing: the
    driver returns for it what it returns for exhausted retries. *)
Lemma Down_ERROR_FAILED : Down_ERROR "FAILED" = Down_FAILED.
Proof. reflexivity. Qed.

(** C3.  A probe that raises an exception whose text is [FAILED]: the
    driver logs it as an error and returns [Down_ERROR] with that text,
    and the message pushed for it is the one of exhausted retries,
    not the one of an error. *)
Theorem error_text_FAILED_is_pushed_as_FAILED :
  let cfg := Sample.config 3 in
  let target := Sample.target (Some "edge") in
  let w := Sample.world [ProbeRaised (TransportError "FAILED")] in
  test_with_retries cfg (proxy target) (identifier target) w
  = (inr (Down_ERROR "FAILED"),
     advance 1 0 (error_round cfg (proxy target) "edge" "FAILED") w)
  /\ pushes (trace (snd (check_target cfg target w)))
     = [ (push_url target,
          [ ("status", VStr "down");
            ("msg", VStr "FAILED : edge : FAILED");
            ("ping", VStr EmptyString) ]) ]
  /\ "FAILED : edge : FAILED" <> "ERROR : edge : FAILED".
Proof.
  split; [|split].
  - reflexivity.
  - vm_compute. reflexivity.
  - discriminate.
Qed.

(** ** Config loading *)

Section LoadingFacts.
Context `{Library}.

Lemma check_required_present keys raw :
  forallb (present raw) keys = true -> check_required keys raw = Loaded tt.
Proof.
  induction keys as [|key keys IH]; simpl; [reflexivity|].
  unfold present at 1. destruct (raw !! key); simpl; [exact IH|discriminate].
Qed.

Lemma check_required_missing keys raw :
  forallb (present raw) keys = false ->
  exists e, check_required keys raw = Raised e.
Proof.
  induction keys as [|key keys IH]; simpl; [discriminate|].
  unfold present at 1. destruct (raw !! key); simpl; [exact IH|eauto].
Qed.

Lemma check_required_inv keys raw :
  check_required keys raw = Loaded tt -> forallb (present raw) keys = true.
Proof.
  intros Hreq. destruct (forallb (present raw) keys) eqn:Hall; [reflexivity|].
  destruct (check_required_missing _ _ Hall) as [e He]. congruence.
Qed.

Lemma field_present raw key :
  present raw key = true -> raw !! key = Some (field raw key).
Proof. unfold present, field. now destruct (raw !! key). Qed.

Lemma load_target_bad item :
  shaped_entry item = true -> bad_entry item = true ->
  exists e, load_target item = Raised e.
Proof.
  unfold shaped_entry, bad_entry, lacks_field, scheme_outside, unparsed,
    load_target, present, validate_proxy_url.
  destruct item as [| | | | | |it]; try discriminate.
  destruct (it !! "proxy") as [p|]; [|simpl; eauto].
  destruct (it !! "push_url") as [u|]; [|simpl; eauto].
  destruct p; try discriminate. simpl.
  destruct (urlparse_scheme s) as [e|scheme]; simpl; [eauto|].
  destruct (bool_decide (lower scheme ∈ ALLOWED_PROXY_SCHEMES)); simpl;
    [discriminate|eauto].
Qed.

Lemma load_target_good item :
  shaped_entry item = true -> bad_entry item = false ->
  exists t, load_target item = Loaded t.
Proof.
  unfold shaped_entry, bad_entry, lacks_field, scheme_outside, unparsed,
    load_target, load_remark, present, validate_proxy_url.
  destruct item as [| | | | | |it]; try discriminate.
  destruct (it !! "proxy") as [p|]; [|discriminate].
  destruct (it !! "push_url") as [u|]; [|discriminate].
  destruct p; try discriminate. destruct u; try discriminate. simpl.
  destruct (urlparse_scheme s) as [e|scheme]; simpl; [discriminate|].
  destruct (bool_decide (lower scheme ∈ ALLOWED_PROXY_SCHEMES)); simpl;
    [|discriminate].
  destruct (it !! "remark") as [[]|]; try discriminate; simpl; eauto.
Qed.

Lemma load_targets_bad items acc :
  forallb shaped_entry items = true -> existsb bad_entry items = true ->
  exists e, load_targets items acc = Raised e.
Proof.
  revert acc. induction items as [|item items IH]; intros acc; simpl;
    [discriminate|].
  intros [Hitem Hrest]%andb_true_iff Hbad.
  destruct (bad_entry item) eqn:Hb.
  - destruct (load_target_bad _ Hitem Hb) as [e ->]. simpl. eauto.
  - destruct (load_target_good _ Hitem Hb) as [t ->]. simpl.
    apply IH; assumption.
Qed.

Lemma load_targets_good items acc :
  forallb shaped_entry items = true -> existsb bad_entry items = false ->
  exists ts,
    load_targets items acc = Loaded (acc ++ ts) /\ length ts = length items.
Proof.
  revert acc. induction items as [|item items IH]; intros acc; simpl.
  - intros _ _. exists []. now rewrite app_nil_r.
  - intros [Hitem Hrest]%andb_true_iff [Hb Hbad]%orb_false_iff.
    destruct (load_target_good _ Hitem Hb) as [t ->]. simpl.
    destruct (IH (acc ++ [t]) Hrest Hbad) as (ts & -> & Hlen).
    exists (t :: ts). rewrite <- app_assoc. simpl. now rewrite Hlen.
Qed.

Lemma existsb_bad_entry items :
  existsb bad_entry items
  = existsb lacks_field items || existsb scheme_outside items
    || existsb unparsed items.
Proof.
  induction items as [|item items IH]; simpl; [reflexivity|].
  rewrite IH. unfold bad_entry.
  destruct (lacks_field item), (scheme_outside item), (unparsed item),
    (existsb lacks_field items), (existsb scheme_outside items);
    reflexivity.
Qed.

(** What [load_config] does on a document of the declared shape. *)
Lemma load_config_shaped raw :
  shaped raw = true ->
  if rejected raw
  then exists e, load_config (JObj raw) = Raised e
  else exists cfg, load_config (JObj raw) = Loaded cfg.
Proof.
  intros Hshape. unfold rejected, listed, missing_required, load_config.
  destruct (forallb (present raw) required) eqn:Hreq; cbn [negb orb].
  2:{ destruct (check_required_missing _ _ Hreq) as [e ->]. cbn. eauto. }
  rewrite (check_required_present _ _ Hreq). cbn [load_bind].
  assert (Hurl : present raw "test_url" = true)
    by (simpl in Hreq; now destruct (present raw "test_url")).
  assert (Htargets : present raw "targets" = true).
  { pose proof (proj1 (forallb_forall _ _) Hreq "targets") as Hin.
    apply Hin. unfold required. repeat (try (left; reflexivity); right). }
  apply field_present in Hurl, Htargets.
  unfold shaped in Hshape. rewrite Hurl, Htargets in Hshape.
  apply andb_true_iff in Hshape as [Hs1 Hs2].
  unfold no_targets, entries. rewrite Htargets.
  destruct (field raw "targets") as [| | | | |items|]; try discriminate.
  replace (match items with [] => true | _ :: _ => false end
           || existsb lacks_field items || existsb scheme_outside items
           || existsb unparsed items)
    with (match items with [] => true | _ :: _ => false end
          || existsb bad_entry items)
    by (rewrite existsb_bad_entry; now rewrite !orb_assoc).
  destruct (existsb bad_entry items) eqn:Hbad.
  - destruct (load_targets_bad items [] Hs2 Hbad) as [e ->].
    rewrite orb_true_r. cbn. eauto.
  - destruct (load_targets_good items [] Hs2 Hbad) as (ts & -> & Hlen).
    rewrite orb_false_r. cbn [load_bind app].
    destruct items as [|item items]; destruct ts as [|t ts];
      try discriminate; cbn [orb]; [eauto|].
    destruct (field raw "test_url"); try discriminate. cbn [as_str load_bind].
    unfold bad_number.
    destruct (py_int (field raw "expected_status")) as [e1|a1];
      cbn [raises call load_bind orb]; [eauto|].
    destruct (py_int (field raw "retries")) as [e2|a2];
      cbn [raises call load_bind orb]; [eauto|].
    destruct (py_float (field raw "timeout_seconds")) as [e3|a3];
      cbn [raises call load_bind orb]; [eauto|].
    destruct (py_float (field raw "retry_delay_seconds")) as [e4|a4];
      cbn [raises call load_bind orb]; [eauto|].
    destruct (py_int (field raw "interval_minutes")) as [e5|a5];
      cbn [raises call load_bind orb]; eauto.
Qed.

(** A document whose [targets] is the empty list is rejected. *)
Lemma empty_targets_rejected raw :
  raw !! "targets" = Some (JArr []) ->
  exists e, load_config (JObj raw) = Raised e.
Proof.
  intros Htargets. unfold load_config.
  destruct (forallb (present raw) required) eqn:Hreq.
  - rewrite (check_required_present _ _ Hreq). cbn [load_bind].
    unfold field. rewrite Htargets. cbn. eauto.
  - destruct (check_required_missing _ _ Hreq) as [e ->]. cbn. eauto.
Qed.

(** A document of the declared shape with a target whose proxy URL has a
    scheme that reads [ftp] in lower case is rejected. *)
Lemma ftp_target_rejected raw items item p scheme :
  shaped raw = true ->
  raw !! "targets" = Some (JArr items) ->
  In (JObj item) items ->
  item !! "proxy" = Some (JStr p) ->
  urlparse_scheme p = inr scheme ->
  lower scheme = "ftp" ->
  exists e, load_config (JObj raw) = Raised e.
Proof.
  intros Hshape Htargets Hin Hproxy Hparse Hlower.
  pose proof (load_config_shaped raw Hshape) as Hload.
  assert (Hout : existsb scheme_outside (entries raw) = true).
  { apply existsb_exists. exists (JObj item).
    unfold entries. rewrite Htargets. split; [exact Hin|].
    unfold scheme_outside. rewrite Hproxy, Hparse, Hlower.
    vm_compute. reflexivity. }
  unfold rejected, listed in Hload. rewrite Hout in Hload.
  now rewrite !orb_true_r in Hload.
Qed.

End LoadingFacts.

(** C7.  On a document of the declared shape, [load_config] raises
    exactly when a required field is absent, the targets list is empty,
    some target lacks [proxy] or [push_url], the scheme of some proxy URL
    (lower-cased) is outside the allow-list, [urlparse] raises on some
    proxy URL, or [int()] or [float()] raises on a numeric field; each of
    the first four conditions alone makes it raise, and [main] then ends
    with that exception without running anything. *)
Theorem load_config_raises_iff `{Library} raw :
  shaped raw = true ->
  ((exists e, load_config (JObj raw) = Raised e) <-> rejected raw = true)
  /\ (listed raw = true -> exists e, load_config (JObj raw) = Raised e)
  /\ (forall e scheds once fuel w,
        load_config (JObj raw) = Raised e ->
        main (JObj raw) scheds once fuel w = Raised e).
Proof.
  intros Hshape. pose proof (load_config_shaped raw Hshape) as Hload.
  split; [|split].
  - destruct (rejected raw).
    + split; [reflexivity|]. intros _. exact Hload.
    + destruct Hload as [cfg Hcfg]. split; [|discriminate].
      intros [e He]. congruence.
  - intros Hlisted. unfold rejected in Hload.
    rewrite Hlisted in Hload. exact Hload.
  - intros e scheds once fuel w He. unfold main. now rewrite He.
Qed.

(** ** Retries below one *)

Section RetriesFacts.
Context `{Library}.

Lemma present_insert raw k v key :
  present raw key = true -> present (<[k:=v]> raw) key = true.
Proof.
  unfold present. rewrite lookup_insert. case_decide; [reflexivity|].
  now destruct (raw !! key).
Qed.

Lemma field_insert_ne raw k v key :
  k <> key -> field (<[k:=v]> raw) key = field raw key.
Proof. intros Hne. unfold field. now rewrite lookup_insert_ne. Qed.

Lemma field_insert_eq raw k v : field (<[k:=v]> raw) k = v.
Proof. unfold field. now rewrite lookup_insert_eq. Qed.

Lemma load_config_retries raw cfg z :
  load_config (JObj raw) = Loaded cfg ->
  load_config (JObj (<["retries" := JInt z]> raw)) = Loaded (with_retries z cfg).
Proof.
  unfold load_config. intros Hload.
  destruct (check_required required raw) as [[]| |] eqn:Hreq; try discriminate.
  apply check_required_inv in Hreq.
  rewrite check_required_present.
  2:{ apply forallb_forall. intros key Hin. apply present_insert.
      revert key Hin. now apply forallb_forall. }
  cbn [load_bind] in *.
  rewrite field_insert_ne by discriminate.
  destruct (field raw "targets"); try discriminate.
  destruct (load_targets l []) as [ts| |]; try discriminate.
  cbn [load_bind] in *. destruct ts as [|t ts]; try discriminate.
  rewrite field_insert_ne by discriminate.
  destruct (as_str (field raw "test_url")) as [url| |]; try discriminate.
  cbn [load_bind] in *.
  rewrite field_insert_ne by discriminate.
  destruct (py_int (field raw "expected_status")) as [|a1]; try discriminate.
  cbn [call load_bind] in *.
  rewrite field_insert_eq.
  destruct (py_int (field raw "retries")) as [|a2]; try discriminate.
  cbn [call load_bind py_int] in *.
  rewrite field_insert_ne by discriminate.
  destruct (py_float (field raw "timeout_seconds")) as [|a3]; try discriminate.
  cbn [call load_bind] in *.
  rewrite field_insert_ne by discriminate.
  destruct (py_float (field raw "retry_delay_seconds")) as [|a4]; try discriminate.
  cbn [call load_bind] in *.
  rewrite field_insert_ne by discriminate.
  destruct (py_int (field raw "interval_minutes")) as [|a5]; try discriminate.
  cbn [call load_bind] in *.
  injection Hload as <-. reflexivity.
Qed.

Lemma load_config_retries_value raw cfg v z :
  load_config (JObj raw) = Loaded cfg ->
  py_int v = inr z ->
  load_config (JObj (<["retries" := v]> raw)) = Loaded (with_retries z cfg).
Proof.
  unfold load_config. intros Hload Hv.
  destruct (check_required required raw) as [[]| |] eqn:Hreq; try discriminate.
  apply check_required_inv in Hreq.
  rewrite check_required_present.
  2:{ apply forallb_forall. intros key Hin. apply present_insert.
      revert key Hin. now apply forallb_forall. }
  cbn [load_bind] in *.
  rewrite field_insert_ne by discriminate.
  destruct (field raw "targets"); try discriminate.
  destruct (load_targets l []) as [ts| |]; try discriminate.
  cbn [load_bind] in *. destruct ts as [|t ts]; try discriminate.
  rewrite field_insert_ne by discriminate.
  destruct (as_str (field raw "test_url")) as [url| |]; try discriminate.
  cbn [load_bind] in *.
  rewrite field_insert_ne by discriminate.
  destruct (py_int (field raw "expected_status")) as [|a1]; try discriminate.
  cbn [call load_bind] in *.
  rewrite field_insert_eq, Hv.
  destruct (py_int (field raw "retries")) as [|a2]; try discriminate.
  cbn [call load_bind] in *.
  rewrite field_insert_ne by discriminate.
  destruct (py_float (field raw "timeout_seconds")) as [|a3]; try discriminate.
  cbn [call load_bind] in *.
  rewrite field_insert_ne by discriminate.
  destruct (py_float (field raw "retry_delay_seconds")) as [|a4]; try discriminate.
  cbn [call load_bind] in *.
  rewrite field_insert_ne by discriminate.
  destruct (py_int (field raw "interval_minutes")) as [|a5]; try discriminate.
  cbn [call load_bind] in *.
  injection Hload as <-. reflexivity.
Qed.

End RetriesFacts.

Lemma test_with_retries_none cfg proxy name w :
  retries cfg <= 0 ->
  test_with_retries cfg proxy name w
  = (inr Down_FAILED, advance 0 0 (exhausted proxy name) w).
Proof.
  intros Hle. unfold test_with_retries.
  replace (Z.to_nat (retries cfg)) with O by lia.
  apply attempts_exhausted.
Qed.

(** C10.  [load_config] puts no lower bound on [retries]: a document that
    loads still loads with [retries] replaced by zero or a negative
    number.  With such a configuration the retry loop does not run: the
    driver performs no probe and no delay, logs the exhausted-retries
    line and returns [Down_FAILED], and the target is pushed as down with
    the FAILED message. *)
Theorem retries_below_one_load_and_fail `{Library} raw cfg z target w :
  load_config (JObj raw) = Loaded cfg ->
  z <= 0 ->
  let cfg' := with_retries z cfg in
  let id := identifier target in
  let δ := exhausted (proxy target) id in
  load_config (JObj (<["retries" := JInt z]> raw)) = Loaded cfg'
  /\ test_with_retries cfg' (proxy target) id w
     = (inr Down_FAILED, advance 0 0 δ w)
  /\ gets δ = [] /\ sleeps δ = []
  /\ check_target cfg' target w
     = (inr tt,
        advance 0 1
          (δ ++ [ PushGet (push_url target)
                    [ ("status", VStr "down");
                      ("msg", VStr ("FAILED : " +:+ id +:+ " : FAILED"));
                      ("ping", VStr EmptyString) ];
                  push_line "down" (kuma w O) ]) w).
Proof.
  intros Hload Hz cfg' id δ.
  assert (Hdrv : test_with_retries cfg' (proxy target) id w
                 = (inr Down_FAILED, advance 0 0 δ w))
    by (now apply test_with_retries_none).
  split; [now apply load_config_retries|].
  split; [exact Hdrv|]. split; [reflexivity|]. split; [reflexivity|].
  exact (check_target_after cfg' target w Down_FAILED 0 δ Hdrv).
Qed.

(** ** More on config loading *)

Section MoreLoading.
Context `{Library}.

Lemma check_required_first_missing pre key post raw :
  forallb (present raw) pre = true ->
  raw !! key = None ->
  check_required (pre ++ key :: post) raw
  = Raised (ValueError ("Missing config field: " +:+ key)).
Proof.
  intros Hpre Hkey. induction pre as [|k pre IH]; simpl.
  - now rewrite Hkey.
  - simpl in Hpre. apply andb_true_iff in Hpre as [Hk Hpre].
    unfold present in Hk. destruct (raw !! k); [|discriminate]. now apply IH.
Qed.

(** X1.  When a required field is absent, all the required fields
    listed before it being present, [load_config] raises the
    [ValueError] that names that field. *)
Theorem missing_field_is_named raw pre key post :
  required = pre ++ key :: post ->
  forallb (present raw) pre = true ->
  raw !! key = None ->
  load_config (JObj raw)
  = Raised (ValueError ("Missing config field: " +:+ key)).
Proof.
  intros Hreq Hpre Hkey. unfold load_config. rewrite Hreq.
  now rewrite (check_required_first_missing _ _ _ _ Hpre Hkey).
Qed.

Lemma load_targets_app items1 items2 acc :
  load_targets (items1 ++ items2) acc
  = load_bind (load_targets items1 acc) (fun ts => load_targets items2 ts).
Proof.
  revert acc. induction items1 as [|item items1 IH]; intros acc; simpl;
    [reflexivity|].
  destruct (load_target item); simpl; auto.
Qed.

Lemma load_targets_first_failure items1 item items2 acc ts e :
  load_targets items1 acc = Loaded ts ->
  load_target item = Raised e ->
  load_targets (items1 ++ item :: items2) acc = Raised e.
Proof.
  intros H1 H2. rewrite load_targets_app, H1. simpl. now rewrite H2.
Qed.

Lemma load_config_failing_target raw items1 item items2 ts e :
  forallb (present raw) required = true ->
  raw !! "targets" = Some (JArr (items1 ++ item :: items2)) ->
  load_targets items1 [] = Loaded ts ->
  load_target item = Raised e ->
  load_config (JObj raw) = Raised e.
Proof.
  intros Hreq Htargets H1 H2. unfold load_config.
  rewrite (check_required_present _ _ Hreq). cbn [load_bind].
  replace (field raw "targets") with (JArr (items1 ++ item :: items2))
    by (unfold field; now rewrite Htargets).
  now rewrite (load_targets_first_failure _ _ _ _ _ _ H1 H2).
Qed.

(** X2.  In a document with every required field, the first target that
    lacks [proxy] or [push_url], the targets before it being loaded,
    makes [load_config] raise
    [Each target must contain proxy and push_url], whatever follows it. *)
Theorem target_without_field_is_rejected raw items1 entry items2 ts :
  forallb (present raw) required = true ->
  raw !! "targets" = Some (JArr (items1 ++ JObj entry :: items2)) ->
  load_targets items1 [] = Loaded ts ->
  entry !! "proxy" = None \/ entry !! "push_url" = None ->
  load_config (JObj raw)
  = Raised (ValueError "Each target must contain proxy and push_url").
Proof.
  intros Hreq Htargets H1 Hlack.
  apply (load_config_failing_target _ _ _ _ _ _ Hreq Htargets H1).
  unfold load_target. destruct Hlack as [-> | ->]; [reflexivity|].
  now destruct (entry !! "proxy").
Qed.

(** X3.  In a document with every required field, the first target
    whose proxy URL has a scheme outside the allow-list, the targets
    before it being loaded, makes [load_config] raise
    [Unsupported proxy scheme:] followed by that proxy URL. *)
Theorem unsupported_scheme_is_reported raw items1 entry items2 ts p scheme :
  forallb (present raw) required = true ->
  raw !! "targets" = Some (JArr (items1 ++ JObj entry :: items2)) ->
  load_targets items1 [] = Loaded ts ->
  entry !! "proxy" = Some (JStr p) ->
  is_Some (entry !! "push_url") ->
  urlparse_scheme p = inr scheme ->
  lower scheme ∉ ALLOWED_PROXY_SCHEMES ->
  load_config (JObj raw)
  = Raised (ValueError ("Unsupported proxy scheme: " +:+ p)).
Proof.
  intros Hreq Htargets H1 Hproxy [u Hpush] Hparse Hout.
  apply (load_config_failing_target _ _ _ _ _ _ Hreq Htargets H1).
  unfold load_target, validate_proxy_url. rewrite Hproxy, Hpush. cbn.
  rewrite Hparse. now rewrite bool_decide_eq_false_2.
Qed.


(** *** What a loaded configuration holds *)

Lemma load_target_inv item t :
  load_target item = Loaded t ->
  mirrors item t
  /\ validate_proxy_url (proxy t) = inr tt
  /\ clean_remark t.
Proof.
  unfold load_target, mirrors, clean_remark.
  destruct item as [| | | | | |entry]; try discriminate.
  destruct (entry !! "proxy") as [p|] eqn:Hp; [|discriminate].
  destruct (entry !! "push_url") as [u|] eqn:Hu; [|discriminate].
  destruct p as [| | | |p| |]; try discriminate. cbn [as_str load_bind].
  destruct (validate_proxy_url p) as [e|[]] eqn:Hv; try discriminate.
  cbn [call load_bind]. unfold load_remark.
  destruct (entry !! "remark") as [[| | | |r| |]|]; try discriminate;
    cbn [load_bind]; destruct u; try discriminate; cbn [as_str load_bind];
    intros [= <-]; cbn [proxy push_url remark];
    (split; [eauto|split; [exact Hv|]]); try exact I.
  destruct (strip_is_empty r) eqn:Hr; [exact I|exact Hr].
Qed.

Lemma load_targets_inv items acc ts :
  load_targets items acc = Loaded ts ->
  exists ts',
    ts = acc ++ ts'
    /\ Forall2 (fun item t => load_target item = Loaded t) items ts'.
Proof.
  revert acc. induction items as [|item items IH]; intros acc; simpl.
  - intros [= <-]. exists []. now rewrite app_nil_r.
  - destruct (load_target item) as [t| |] eqn:Ht; try discriminate. simpl.
    intros Hrest. destruct (IH _ Hrest) as (ts' & -> & Hall).
    exists (t :: ts'). rewrite <- app_assoc. split; [reflexivity|].
    now constructor.
Qed.

Lemma load_config_inv raw cfg :
  load_config (JObj raw) = Loaded cfg ->
  exists items,
    raw !! "targets" = Some (JArr items)
    /\ load_targets items [] = Loaded (targets cfg)
    /\ targets cfg <> []
    /\ raw !! "test_url" = Some (JStr (test_url cfg))
    /\ py_int (field raw "expected_status") = inr (expected_status cfg)
    /\ py_int (field raw "retries") = inr (retries cfg)
    /\ py_float (field raw "timeout_seconds") = inr (timeout_seconds cfg)
    /\ py_float (field raw "retry_delay_seconds") = inr (retry_delay_seconds cfg)
    /\ py_int (field raw "interval_minutes") = inr (interval_minutes cfg).
Proof.
  unfold load_config. intros Hload.
  destruct (check_required required raw) as [[]| |] eqn:Hreq; try discriminate.
  apply check_required_inv in Hreq.
  assert (Hurl : present raw "test_url" = true)
    by (simpl in Hreq; now destruct (present raw "test_url")).
  assert (Htargets : present raw "targets" = true).
  { pose proof (proj1 (forallb_forall _ _) Hreq "targets") as Hin.
    apply Hin. unfold required. repeat (try (left; reflexivity); right). }
  apply field_present in Hurl, Htargets.
  cbn [load_bind] in Hload.
  destruct (field raw "targets") as [| | | | |items|]; try discriminate.
  exists items. split; [exact Htargets|].
  destruct (load_targets items []) as [ts| |]; try discriminate.
  cbn [load_bind] in Hload. destruct ts as [|t ts]; try discriminate.
  destruct (field raw "test_url") as [| | | |url| |]; try discriminate.
  cbn [as_str load_bind] in Hload.
  destruct (py_int (field raw "expected_status")) as [|a1]; try discriminate.
  cbn [call load_bind] in Hload.
  destruct (py_int (field raw "retries")) as [|a2]; try discriminate.
  cbn [call load_bind] in Hload.
  destruct (py_float (field raw "timeout_seconds")) as [|a3]; try discriminate.
  cbn [call load_bind] in Hload.
  destruct (py_float (field raw "retry_delay_seconds")) as [|a4]; try discriminate.
  cbn [call load_bind] in Hload.
  destruct (py_int (field raw "interval_minutes")) as [|a5]; try discriminate.
  cbn [call load_bind] in Hload.
  injection Hload as <-. cbn. repeat split; try reflexivity; try assumption.
  discriminate.
Qed.

Lemma loaded_targets_all raw cfg :
  load_config (JObj raw) = Loaded cfg ->
  exists items,
    raw !! "targets" = Some (JArr items)
    /\ Forall2 (fun item t => load_target item = Loaded t) items (targets cfg).
Proof.
  intros Hload. destruct (load_config_inv _ _ Hload) as (items & Ht & Hl & _).
  exists items. split; [exact Ht|].
  destruct (load_targets_inv _ _ _ Hl) as (ts' & Heq & Hall).
  simpl in Heq. now rewrite Heq.
Qed.

(** X4.  A loaded configuration has at least one target, and its targets
    are the entries of the document's [targets] list, one for one and in
    the same order, each with the entry's [proxy] and [push_url]. *)
Theorem loaded_targets_mirror_the_document raw cfg :
  load_config (JObj raw) = Loaded cfg ->
  exists items,
    raw !! "targets" = Some (JArr items)
    /\ items <> []
    /\ Forall2 mirrors items (targets cfg).
Proof.
  intros Hload. destruct (loaded_targets_all _ _ Hload) as (items & Ht & Hall).
  exists items. split; [exact Ht|]. split.
  - destruct (load_config_inv _ _ Hload) as (_ & _ & _ & Hne & _).
    intros ->. inversion Hall as [Hnil|]. congruence.
  - eapply Forall2_impl; [exact Hall|].
    intros item t Ht'. now apply load_target_inv in Ht'.
Qed.

Lemma validate_proxy_url_inv p :
  validate_proxy_url p = inr tt -> allowed_scheme p.
Proof.
  unfold validate_proxy_url, allowed_scheme.
  destruct (urlparse_scheme p) as [e|scheme]; [discriminate|].
  destruct (bool_decide (lower scheme ∈ ALLOWED_PROXY_SCHEMES)) eqn:Hin;
    [|discriminate].
  intros _. exists scheme. split; [reflexivity|].
  now apply bool_decide_eq_true_1 in Hin.
Qed.

Lemma identifier_clean t :
  clean_remark t -> identifier t = default (proxy t) (remark t).
Proof.
  unfold clean_remark. rewrite identifier_spec.
  destruct (remark t) as [r|]; [|reflexivity].
  now intros ->.
Qed.

(** X5.  On a document of the declared shape, in which every remark is
    a text or null, every target of the loaded configuration has a proxy
    URL whose scheme is in the allow-list and a remark that is absent or
    not blank; its display identifier is then the remark when there is
    one and the proxy URL otherwise. *)
Theorem loaded_targets_are_valid raw cfg :
  shaped raw = true ->
  load_config (JObj raw) = Loaded cfg ->
  Forall (fun t =>
            allowed_scheme (proxy t)
            /\ clean_remark t
            /\ identifier t = default (proxy t) (remark t))
         (targets cfg).
Proof.
  intros _ Hload. destruct (loaded_targets_all _ _ Hload) as (items & _ & Hall).
  induction Hall as [|item t items ts Ht _ IH]; constructor; [|exact IH].
  apply load_target_inv in Ht as (_ & Hv & Hr).
  split; [now apply validate_proxy_url_inv|].
  split; [exact Hr|now apply identifier_clean].
Qed.

(** X6.  A loaded configuration holds the document's [test_url], the
    numbers the document gives as JSON integers for [expected_status],
    [retries] and [interval_minutes], and the ones it gives as JSON floats
    for the two durations, unchanged.  A JSON boolean is accepted for
    [retries]: a document that loads still loads with [retries] replaced
    by [true] or [false], and the configuration then has 1 or 0
    retries. *)
Theorem loaded_numbers_are_the_documents raw cfg :
  load_config (JObj raw) = Loaded cfg ->
  raw !! "test_url" = Some (JStr (test_url cfg))
  /\ (forall z, raw !! "expected_status" = Some (JInt z) ->
        expected_status cfg = z)
  /\ (forall z, raw !! "retries" = Some (JInt z) -> retries cfg = z)
  /\ (forall z, raw !! "interval_minutes" = Some (JInt z) ->
        interval_minutes cfg = z)
  /\ (forall f, raw !! "timeout_seconds" = Some (JFloat f) ->
        timeout_seconds cfg = f)
  /\ (forall f, raw !! "retry_delay_seconds" = Some (JFloat f) ->
        retry_delay_seconds cfg = f)
  /\ (forall b, raw !! "retries" = Some (JBool b) ->
        retries cfg = if b then 1 else 0)
  /\ (forall b,
        load_config (JObj (<["retries" := JBool b]> raw))
        = Loaded (with_retries (if b then 1 else 0) cfg)).
Proof.
  intros Hload.
  destruct (load_config_inv _ _ Hload)
    as (items & _ & _ & _ & Hurl & H1 & H2 & H3 & H4 & H5).
  split; [exact Hurl|].
  unfold field in *.
  repeat split; try (intros v Hv; rewrite Hv in *; cbn in *; congruence).
  intros b. now apply load_config_retries_value.
Qed.

(** *** Keys the loader does not read *)

Lemma check_required_ext keys raw raw' :
  (forall key, In key keys -> raw' !! key = raw !! key) ->
  check_required keys raw' = check_required keys raw.
Proof.
  induction keys as [|key keys IH]; intros Hext; simpl; [reflexivity|].
  rewrite (Hext key) by now left.
  destruct (raw !! key); [|reflexivity].
  apply IH. intros k Hk. apply Hext. now right.
Qed.

Lemma load_config_ext raw raw' :
  (forall key, In key required -> raw' !! key = raw !! key) ->
  load_config (JObj raw') = load_config (JObj raw).
Proof.
  intros Hext.
  assert (Hfield : forall key, In key required -> field raw' key = field raw key).
  { intros key Hin. unfold field. now rewrite Hext. }
  unfold load_config. rewrite (check_required_ext _ _ _ Hext).
  destruct (check_required required raw) as [[]| |]; try reflexivity.
  cbn [load_bind].
  rewrite (Hfield "targets") by (unfold required; simpl; tauto).
  destruct (field raw "targets"); try reflexivity.
  destruct (load_targets l []) as [ts| |]; try reflexivity.
  cbn [load_bind]. destruct ts as [|t ts]; [reflexivity|].
  rewrite (Hfield "test_url") by (unfold required; simpl; tauto).
  destruct (as_str (field raw "test_url")); try reflexivity. cbn [load_bind].
  rewrite (Hfield "expected_status") by (unfold required; simpl; tauto).
  destruct (py_int (field raw "expected_status")); try reflexivity.
  cbn [call load_bind].
  rewrite (Hfield "retries") by (unfold required; simpl; tauto).
  destruct (py_int (field raw "retries")); try reflexivity.
  cbn [call load_bind].
  rewrite (Hfield "timeout_seconds") by (unfold required; simpl; tauto).
  destruct (py_float (field raw "timeout_seconds")); try reflexivity.
  cbn [call load_bind].
  rewrite (Hfield "retry_delay_seconds") by (unfold required; simpl; tauto).
  destruct (py_float (field raw "retry_delay_seconds")); try reflexivity.
  cbn [call load_bind].
  rewrite (Hfield "interval_minutes") by (unfold required; simpl; tauto).
  reflexivity.
Qed.

(** X7.  [load_config] reads the seven required fields only: adding,
    changing or removing any other top-level key changes nothing. *)
Theorem unread_keys_change_nothing raw key v :
  ~ In key required ->
  load_config (JObj (<[key := v]> raw)) = load_config (JObj raw)
  /\ load_config (JObj (delete key raw)) = load_config (JObj raw).
Proof.
  intros Hout. split; apply load_config_ext; intros k Hin.
  - apply lookup_insert_ne. intros ->. contradiction.
  - apply lookup_delete_ne. intros ->. contradiction.
Qed.

Lemma load_target_ext entry entry' :
  entry' !! "proxy" = entry !! "proxy" ->
  entry' !! "push_url" = entry !! "push_url" ->
  load_remark entry' = load_remark entry ->
  load_target (JObj entry') = load_target (JObj entry).
Proof.
  intros Hp Hu Hr. unfold load_target. rewrite Hp, Hu.
  destruct (entry !! "proxy") as [p|]; [|reflexivity].
  destruct (entry !! "push_url") as [u|]; [|reflexivity].
  destruct (as_str p); try reflexivity. cbn [load_bind].
  destruct (call (validate_proxy_url a)); try reflexivity. cbn [load_bind].
  now rewrite Hr.
Qed.

(** X8.  A target whose remark is blank, or null, loads exactly as the
    same target without a remark. *)
Theorem blank_remark_is_no_remark entry s :
  strip_is_empty s = true ->
  load_target (JObj (<["remark" := JStr s]> entry))
  = load_target (JObj (delete "remark" entry))
  /\ load_target (JObj (<["remark" := JNull]> entry))
     = load_target (JObj (delete "remark" entry)).
Proof.
  intros Hblank. split; apply load_target_ext.
  - now rewrite lookup_insert_ne, lookup_delete_ne.
  - now rewrite lookup_insert_ne, lookup_delete_ne.
  - unfold load_remark. rewrite lookup_insert_eq, lookup_delete_eq.
    now rewrite Hblank.
  - now rewrite lookup_insert_ne, lookup_delete_ne.
  - now rewrite lookup_insert_ne, lookup_delete_ne.
  - unfold load_remark. now rewrite lookup_insert_eq, lookup_delete_eq.
Qed.

End MoreLoading.

(** ** More on the retry driver *)

Section MoreTester.
Variable cfg : AppConfig.
Variables proxy name : string.

Lemma soft_dec (r : ProbeReply) :
  soft cfg r
  \/ (exists ms, r = Responded (expected_status cfg) ms)
  \/ (exists e, r = ProbeRaised e).
Proof.
  destruct r as [code ms|e]; [|eauto].
  destruct (Z.eq_dec code (expected_status cfg)) as [->|Hne]; [eauto|].
  left. now exists code, ms.
Qed.

(** Among the first [n] replies either all are soft failures or there is
    a first one that is not. *)
Lemma first_decisive (f : nat -> ProbeReply) n :
  (forall i, (i < n)%nat -> soft cfg (f i))
  \/ exists k, (k < n)%nat
       /\ (forall i, (i < k)%nat -> soft cfg (f i))
       /\ ((exists ms, f k = Responded (expected_status cfg) ms)
           \/ (exists e, f k = ProbeRaised e)).
Proof.
  induction n as [|n IH]; [left; intros i Hi; lia|].
  destruct IH as [Hall|(k & Hk & Hbefore & Hat)].
  - destruct (soft_dec (f n)) as [Hs|Hd].
    + left. intros i Hi. destruct (Nat.eq_dec i n) as [->|]; [exact Hs|].
      apply Hall. lia.
    + right. exists n. split; [lia|]. split; [exact Hall|exact Hd].
  - right. exists k. split; [lia|]. now split.
Qed.

Lemma attempts_all_soft n attempt w :
  (forall i, (i < n)%nat -> soft cfg (net w i)) ->
  attempts cfg proxy name n attempt w
  = (inr Down_FAILED,
     advance n 0 (soft_rounds cfg proxy name n attempt ++ exhausted proxy name) w).
Proof.
  intros Hsoft. replace n with (n + 0)%nat at 1 by lia.
  rewrite attempts_soft_rounds by assumption.
  rewrite attempts_exhausted, advance_advance. now rewrite !Nat.add_0_r.
Qed.

Lemma attempts_first_success n attempt w k ms :
  (k < n)%nat ->
  (forall i, (i < k)%nat -> soft cfg (net w i)) ->
  net w k = Responded (expected_status cfg) ms ->
  attempts cfg proxy name n attempt w
  = (inr (Up ms),
     advance (S k) 0
       (soft_rounds cfg proxy name k attempt
        ++ success_round cfg proxy name (attempt + Z.of_nat k) ms) w).
Proof.
  intros Hk Hsoft Hnet.
  replace n with (k + S (n - S k))%nat by lia.
  rewrite attempts_soft_rounds by assumption.
  rewrite (attempts_success _ _ _ _ _ _ ms).
  - now rewrite advance_advance, !Nat.add_1_r.
  - simpl. now rewrite shift_spec, Nat.add_0_r.
Qed.

Lemma attempts_first_error n attempt w k e :
  (k < n)%nat ->
  (forall i, (i < k)%nat -> soft cfg (net w i)) ->
  net w k = ProbeRaised e ->
  attempts cfg proxy name n attempt w
  = (inr (Down_ERROR (str_exn e)),
     advance (S k) 0
       (soft_rounds cfg proxy name k attempt
        ++ error_round cfg proxy name (str_exn e)) w).
Proof.
  intros Hk Hsoft Hnet.
  replace n with (k + S (n - S k))%nat by lia.
  rewrite attempts_soft_rounds by assumption.
  rewrite (attempts_error _ _ _ _ _ _ e).
  - now rewrite advance_advance, !Nat.add_1_r.
  - simpl. now rewrite shift_spec, Nat.add_0_r.
Qed.

(** The three ways a run of the driver can go, told from the replies. *)
Lemma driver_cases w :
  let n := Z.to_nat (retries cfg) in
  ((forall i, (i < n)%nat -> soft cfg (net w i))
   /\ test_with_retries cfg proxy name w
      = (inr Down_FAILED,
         advance n 0 (soft_rounds cfg proxy name n 1 ++ exhausted proxy name) w))
  \/ (exists k ms,
        (k < n)%nat
        /\ (forall i, (i < k)%nat -> soft cfg (net w i))
        /\ net w k = Responded (expected_status cfg) ms
        /\ test_with_retries cfg proxy name w
           = (inr (Up ms),
              advance (S k) 0
                (soft_rounds cfg proxy name k 1
                 ++ success_round cfg proxy name (1 + Z.of_nat k) ms) w))
  \/ (exists k e,
        (k < n)%nat
        /\ (forall i, (i < k)%nat -> soft cfg (net w i))
        /\ net w k = ProbeRaised e
        /\ test_with_retries cfg proxy name w
           = (inr (Down_ERROR (str_exn e)),
              advance (S k) 0
                (soft_rounds cfg proxy name k 1
                 ++ error_round cfg proxy name (str_exn e)) w)).
Proof.
  intros n. unfold test_with_retries. fold n.
  destruct (first_decisive (net w) n)
    as [Hall|(k & Hk & Hbefore & [[ms Hat]|[e Hat]])].
  - left. split; [exact Hall|now apply attempts_all_soft].
  - right; left. exists k, ms. repeat split; try assumption.
    now apply attempts_first_success.
  - right; right. exists k, e. repeat split; try assumption.
    now apply attempts_first_error.
Qed.

Lemma sleeps_soft_rounds_length k attempt :
  attempt + Z.of_nat k <= retries cfg ->
  length (sleeps (soft_rounds cfg proxy name k attempt)) = k.
Proof.
  intros Hle. rewrite sleeps_soft_rounds by assumption. apply repeat_length.
Qed.

Lemma pushes_soft_rounds k attempt :
  pushes (soft_rounds cfg proxy name k attempt) = [].
Proof.
  revert attempt. induction k as [|k IH]; intros attempt; [reflexivity|].
  cbn [soft_rounds]. rewrite pushes_app, IH, app_nil_r.
  unfold soft_round. now destruct (attempt <? retries cfg).
Qed.

End MoreTester.

(** X9.  Whatever the probes meet, the driver returns one of its three
    results, decided by the first attempt that is not a soft failure:
    [(False, None, "FAILED")] when all [retries] attempts are soft
    failures, [(True, ms, "OK")] when that first attempt meets the
    expected status with latency [ms], [(False, None, str(e))] with the
    text of the exception when it raises. *)
Theorem the_first_decisive_attempt_decides cfg proxy name w :
  let n := Z.to_nat (retries cfg) in
  let r := fst (test_with_retries cfg proxy name w) in
  ((forall i, (i < n)%nat -> soft cfg (net w i))
   /\ r = inr (false, None, Some "FAILED"))
  \/ (exists k ms,
        (k < n)%nat
        /\ (forall i, (i < k)%nat -> soft cfg (net w i))
        /\ net w k = Responded (expected_status cfg) ms
        /\ r = inr (true, Some ms, Some "OK"))
  \/ (exists k e,
        (k < n)%nat
        /\ (forall i, (i < k)%nat -> soft cfg (net w i))
        /\ net w k = ProbeRaised e
        /\ r = inr (false, None, Some (str_exn e))).
Proof.
  intros n r.
  destruct (driver_cases cfg proxy name w)
    as [(Hall & Heq)|[(k & ms & Hk & Hb & Hat & Heq)|(k & e & Hk & Hb & Hat & Heq)]];
    unfold r; rewrite Heq.
  - left. now split.
  - right; left. exists k, ms. now repeat split.
  - right; right. exists k, e. now repeat split.
Qed.

(** X10.  Whatever the probes meet, the driver makes at most [retries]
    probes (none when [retries <= 0]), sleeps exactly once between two
    consecutive probes, each time for [retry_delay_seconds], and pushes
    nothing. *)
Theorem driver_probes_and_delays cfg proxy name w :
  exists r k δ,
    test_with_retries cfg proxy name w = (inr r, advance k 0 δ w)
    /\ length (gets δ) = k
    /\ Z.of_nat k <= Z.max 0 (retries cfg)
    /\ sleeps δ = repeat (VFloat (retry_delay_seconds cfg)) (pred k)
    /\ pushes δ = [].
Proof.
  destruct (driver_cases cfg proxy name w)
    as [(Hall & Heq)|[(k & ms & Hk & Hb & Hat & Heq)|(k & e & Hk & Hb & Hat & Heq)]];
    rewrite Heq.
  - eexists _, _, _. split; [reflexivity|].
    rewrite gets_app, length_app, gets_soft_rounds, pushes_app,
      pushes_soft_rounds, sleeps_app.
    split; [simpl; lia|]. split; [lia|]. split; [|reflexivity].
    simpl. rewrite app_nil_r.
    destruct (Z.to_nat (retries cfg)) as [|m] eqn:Hn; [reflexivity|].
    rewrite soft_rounds_snoc, sleeps_app, sleeps_soft_rounds by lia.
    replace (1 + Z.of_nat m) with (retries cfg) by lia.
    rewrite sleeps_last_round. simpl. now rewrite app_nil_r.
  - eexists _, _, _. split; [reflexivity|].
    rewrite gets_app, length_app, gets_soft_rounds, pushes_app,
      pushes_soft_rounds, sleeps_app, sleeps_soft_rounds by lia.
    split; [simpl; lia|]. split; [lia|]. split; [|reflexivity].
    simpl. now rewrite app_nil_r.
  - eexists _, _, _. split; [reflexivity|].
    rewrite gets_app, length_app, gets_soft_rounds, pushes_app,
      pushes_soft_rounds, sleeps_app, sleeps_soft_rounds by lia.
    split; [simpl; lia|]. split; [lia|]. split; [|reflexivity].
    simpl. now rewrite app_nil_r.
Qed.


(** X11.  The driver reads no more than the first [retries] replies: in
    two worlds that agree on them it returns the same result after the
    same events. *)
Theorem driver_reads_only_its_replies cfg proxy name w1 w2 :
  (forall i, (i < Z.to_nat (retries cfg))%nat -> net w1 i = net w2 i) ->
  exists r k δ,
    test_with_retries cfg proxy name w1 = (inr r, advance k 0 δ w1)
    /\ test_with_retries cfg proxy name w2 = (inr r, advance k 0 δ w2).
Proof.
  intros Hagree. unfold test_with_retries.
  destruct (driver_cases cfg proxy name w1)
    as [(Hall & Heq)|[(k & ms & Hk & Hb & Hat & Heq)|(k & e & Hk & Hb & Hat & Heq)]];
    unfold test_with_retries in Heq; rewrite Heq; eexists _, _, _;
    (split; [reflexivity|]).
  - apply attempts_all_soft. intros i Hi. rewrite <- Hagree by lia. now apply Hall.
  - apply attempts_first_success; [exact Hk| |now rewrite <- Hagree].
    intros i Hi. rewrite <- Hagree by lia. now apply Hb.
  - apply attempts_first_error; [exact Hk| |now rewrite <- Hagree].
    intros i Hi. rewrite <- Hagree by lia. now apply Hb.
Qed.

(** ** More on a target and a cycle *)

(** X12.  Whatever the probes meet, [check_target] makes exactly one
    push, to the target's push URL, and it has one of three forms: up with
    the OK message and the latency as ping; down with the FAILED message
    and an empty ping; down with the ERROR message, an error text other
    than [FAILED], and an empty ping. *)
Theorem check_target_push_forms cfg target w :
  let id := identifier target in
  exists k δ params,
    check_target cfg target w = (inr tt, advance k 1 δ w)
    /\ pushes δ = [(push_url target, params)]
    /\ ((exists ms, params = up_params id ms)
        \/ params = down_params ("FAILED : " +:+ id +:+ " : FAILED")
        \/ (exists detail,
              detail <> "FAILED"
              /\ params = down_params ("ERROR : " +:+ id +:+ " : " +:+ detail))).
Proof.
  intros id.
  assert (Hform : forall r k δ,
    test_with_retries cfg (proxy target) id w = (inr r, advance k 0 δ w) ->
    pushes δ = [] ->
    forall params, snd (report target r) = params ->
    exists k δ',
      check_target cfg target w = (inr tt, advance k 1 δ' w)
      /\ pushes δ' = [(push_url target, params)]).
  { intros r k δ Hdrv Hpush params <-. eexists _, _.
    split; [exact (check_target_after cfg target w r k δ Hdrv)|].
    rewrite pushes_app, Hpush, pushes_report.
    destruct r as [[ok ping] message]. reflexivity. }
  destruct (driver_cases cfg (proxy target) id w)
    as [(_ & Heq)|[(k & ms & _ & _ & _ & Heq)|(k & e & _ & _ & _ & Heq)]].
  - destruct (Hform _ _ _ Heq) with (params := down_params ("FAILED : " +:+ id +:+ " : FAILED"))
      as (k' & δ' & Hchk & Hp).
    + rewrite pushes_app. now rewrite pushes_soft_rounds.
    + reflexivity.
    + exists k', δ'. eexists. split; [exact Hchk|]. split; [exact Hp|]. now right; left.
  - destruct (Hform _ _ _ Heq) with (params := up_params id ms)
      as (k' & δ' & Hchk & Hp).
    + rewrite pushes_app. now rewrite pushes_soft_rounds.
    + now rewrite report_Up.
    + exists k', δ'. eexists. split; [exact Hchk|]. split; [exact Hp|]. left. now exists ms.
  - destruct (decide (str_exn e = "FAILED")) as [Hf|Hf].
    + destruct (Hform _ _ _ Heq) with (params := down_params ("FAILED : " +:+ id +:+ " : FAILED"))
        as (k' & δ' & Hchk & Hp).
      * rewrite pushes_app. now rewrite pushes_soft_rounds.
      * now rewrite Hf.
      * exists k', δ'. eexists. split; [exact Hchk|]. split; [exact Hp|]. now right; left.
    + destruct (Hform _ _ _ Heq) with (params := down_params ("ERROR : " +:+ id +:+ " : " +:+ str_exn e))
        as (k' & δ' & Hchk & Hp).
      * rewrite pushes_app. now rewrite pushes_soft_rounds.
      * now rewrite report_Down_ERROR.
      * exists k', δ'. eexists. split; [exact Hchk|]. split; [exact Hp|].
        right; right. now exists (str_exn e).
Qed.

(** X13.  However the event loop lets the coroutines of a cycle take
    turns, the cycle makes at most [retries] probes per target, no more
    sleeps than probes, and as many pushes as there are targets. *)
Theorem cycle_probes_are_bounded cfg sched w :
  exists n δ,
    run_cycle cfg sched w = (inr tt, advance n (length (targets cfg)) δ w)
    /\ length (gets δ) = n
    /\ Z.of_nat n <= Z.of_nat (length (targets cfg)) * Z.max 0 (retries cfg)
    /\ (length (sleeps δ) <= n)%nat
    /\ length (pushes δ) = length (targets cfg).
Proof.
  destruct (run_cycle_spec cfg sched w)
    as (δ & ps & Hrun & Hall & Hperm & Hg & Hs & _).
  assert (Hlen : length (pushes δ) = length (targets cfg)).
  { apply Permutation_length in Hperm. apply Forall2_length in Hall. congruence. }
  exists (length (gets δ)), δ. split; [|split; [reflexivity|split; [|split]]].
  - rewrite Hrun. unfold after. now rewrite Hlen.
  - replace (Z.max 0 (retries cfg)) with (Z.of_nat (Z.to_nat (retries cfg))) by lia.
    rewrite <- Nat2Z.inj_mul. now apply Nat2Z.inj_le.
  - exact Hs.
  - exact Hlen.
Qed.

(** ** More on the run loop *)



Lemma sleep_int z w :
  0 < z ->
  sleep (VInt z) w
  = match float_of_int z with
    | inl e => (inl e, w)
    | inr _ => (inr tt, advance 0 0 [Sleep (VInt z)] w)
    end.
Proof.
  intros Hpos. unfold sleep. apply Z.leb_gt in Hpos. rewrite Hpos.
  now destruct (float_of_int z).
Qed.

Lemma run_goes_on cfg scheds w :
  0 < interval_minutes cfg ->
  raises (float_of_int (interval_minutes cfg * 60)) = false ->
  exists n δ,
    Forall (retry_delay cfg) (sleeps δ)
    /\ forall fuel,
         run cfg scheds false (S fuel) w
         = run cfg (fun i => scheds (S i)) false fuel
             (advance n (length (targets cfg))
                (Log INFO "Starting check cycle" [] :: δ ++ pause cfg) w).
Proof.
  intros Hpos Hfloat.
  destruct (cycle_after_start cfg (scheds O) w) as (n & δ & Hcycle & _ & Hsleep).
  exists n, δ. split; [exact Hsleep|]. intros fuel.
  cbn [run]. rewrite Hcycle.
  assert (Hgo : (interval_minutes cfg <=? 0) = false) by now apply Z.leb_gt.
  rewrite Hgo. cbn [orb].
  unfold bind at 1. unfold logger at 1. cbn [enabled]. rewrite emit_spec.
  rewrite sleep_int by lia.
  destruct (float_of_int (interval_minutes cfg * 60)); [discriminate|].
  rewrite !advance_advance, !Nat.add_0_r. unfold pause. simpl.
  now rewrite <- ?app_assoc.
Qed.

(** X15.  Without the run-once flag and with [interval_minutes > 0], as
    long as [interval_minutes * 60] is within the range of a [float], the
    run loop never ends: after every cycle it logs the pause, sleeps
    [interval_minutes * 60] seconds and starts the next cycle. *)
Theorem run_never_ends cfg scheds w :
  0 < interval_minutes cfg ->
  raises (float_of_int (interval_minutes cfg * 60)) = false ->
  (forall fuel scheds0 w0, run cfg scheds0 false fuel w0 = None)
  /\ exists n δ,
       Forall (retry_delay cfg) (sleeps δ)
       /\ forall fuel,
            run cfg scheds false (S fuel) w
            = run cfg (fun i => scheds (S i)) false fuel
                (advance n (length (targets cfg))
                   (Log INFO "Starting check cycle" [] :: δ ++ pause cfg) w).
Proof.
  intros Hpos Hfloat. split; [|now apply run_goes_on].
  induction fuel as [|fuel IH]; intros scheds0 w0; [reflexivity|].
  destruct (run_goes_on cfg scheds0 w0 Hpos Hfloat) as (n & δ & _ & Hstep).
  rewrite Hstep. apply IH.
Qed.


(** * Examples *)

#[local] Existing Instance Sample.library.


Lemma soft_503 code ms :
  code <> 200 -> soft (Sample.config 3) (Responded code ms).
Proof. intros Hne. now exists code, ms. Qed.

Lemma hard_error_ends_the_retries_example :
  let w := Sample.world [ Responded 503 12;
                          ProbeRaised (TransportError "connection refused");
                          Responded 200 950 ] in
  fst (test_with_retries (Sample.config 5) "socks5://10.0.0.1:1080" "edge" w)
  = inr (false, None, Some "connection refused")
  /\ length (gets (trace (snd (test_with_retries (Sample.config 5)
                                 "socks5://10.0.0.1:1080" "edge" w)))) = 2%nat.
Proof.
  intros w.
  destruct (hard_error_ends_the_retries (Sample.config 5)
              "socks5://10.0.0.1:1080" "edge" w 1
              (TransportError "connection refused")) as [Heq Hlen].
  - simpl. lia.
  - intros i Hi. assert (i = O) as -> by lia.
    apply soft_503. discriminate.
  - reflexivity.
  - rewrite Heq. split; reflexivity.
Defined.

Lemma soft_failures_exhaust_the_retries_example :
  let w := Sample.world [Responded 503 12; Responded 500 9; Responded 404 7] in
  let r := test_with_retries (Sample.config 3) "socks5://10.0.0.1:1080" "edge" w in
  fst r = inr (false, None, Some "FAILED")
  /\ length (gets (trace (snd r))) = 3%nat
  /\ sleeps (trace (snd r)) = [VFloat Sample.two; VFloat Sample.two].
Proof.
  intros w r.
  destruct (soft_failures_exhaust_the_retries (Sample.config 3)
              "socks5://10.0.0.1:1080" "edge" w) as (Heq & _ & _ & _).
  - simpl. lia.
  - intros i Hi. simpl in Hi.
    destruct i as [|[|[|i]]]; try lia; apply soft_503; discriminate.
  - unfold r. rewrite Heq. repeat split; reflexivity.
Defined.

Lemma success_ends_the_retries_example :
  let w := Sample.world [Responded 503 12; Responded 500 9; Responded 200 950] in
  let r := test_with_retries (Sample.config 3) "socks5://10.0.0.1:1080" "edge" w in
  fst r = inr (Up 950) /\ length (gets (trace (snd r))) = 3%nat.
Proof.
  intros w r.
  destruct (success_ends_the_retries (Sample.config 3)
              "socks5://10.0.0.1:1080" "edge" w 2 950) as (Heq & _).
  - simpl. lia.
  - intros i Hi.
    destruct i as [|[|i]]; try lia; apply soft_503; discriminate.
  - reflexivity.
  - unfold r. rewrite Heq. split; reflexivity.
Defined.

Lemma one_report_per_target_example :
  let edge := Sample.target (Some "edge") in
  let lab := {| proxy := "http://10.0.0.2:3128";
                push_url := "https://kuma.example/api/push/def";
                remark := None |} in
  let cfg := {| test_url := "https://example.com/";
                expected_status := 200;
                retries := 2;
                timeout_seconds := Sample.ten;
                retry_delay_seconds := Sample.two;
                interval_minutes := 5;
                targets := [edge; lab] |} in
  let w := Sample.world [Responded 200 40; Responded 200 950] in
  let sched := [1; 0; 1; 1]%nat in
  (exists n δ ps,
     run_cycle cfg sched w = (inr tt, advance n 2 δ w)
     /\ Forall2 reported [edge; lab] ps
     /\ pushes δ ≡ₚ ps)
  /\ pushes (trace (snd (run_cycle cfg sched w)))
     = [ ("https://kuma.example/api/push/def",
          [ ("status", VStr "up");
            ("msg", VStr "OK : http://10.0.0.2:3128 : OK (40 ms)");
            ("ping", VInt 40) ]);
         ("https://kuma.example/api/push/abc",
          [ ("status", VStr "up");
            ("msg", VStr "OK : edge : OK (950 ms)");
            ("ping", VInt 950) ]) ].
Proof.
  intros edge lab cfg w sched. split.
  - destruct (one_report_per_target cfg w) as (_ & _ & Hcycle).
    destruct (Hcycle sched) as (n & δ & ps & Hrun & Hall & Hperm & _).
    now exists n, δ, ps.
  - vm_compute. reflexivity.
Defined.

Lemma send_never_raises_example :
  let down := {| net := net (Sample.world []);
                 kuma := fun _ => PushResponded 502 "Server error '502 Bad Gateway'";
                 trace := [] |} in
  let dead := {| net := net (Sample.world []);
                 kuma := fun _ => PushRaised (TransportError "connection refused");
                 trace := [] |} in
  let u := "https://kuma.example/api/push/abc" in
  (fst (send u "down" "FAILED : edge : FAILED" None down) = inr tt
   /\ push_line "down" (kuma down O)
      = Log ERROR "Push failed → %s" [VStr "Server error '502 Bad Gateway'"])
  /\ (fst (send u "up" "OK : edge : OK (950 ms)" (Some 950) dead) = inr tt
      /\ push_line "up" (kuma dead O)
         = Log ERROR "Push failed → %s" [VStr "connection refused"]).
Proof.
  intros down dead u. split.
  - destruct (send_never_raises u "down" "FAILED : edge : FAILED" None down)
      as (Heq & _ & _ & Hcode).
    rewrite Heq. split; [reflexivity|].
    apply (Hcode 502 "Server error '502 Bad Gateway'"); [reflexivity|lia].
  - destruct (send_never_raises u "up" "OK : edge : OK (950 ms)" (Some 950) dead)
      as (Heq & _ & Hexn & _).
    rewrite Heq. split; [reflexivity|].
    apply (Hexn (TransportError "connection refused")). reflexivity.
Defined.

Lemma run_ends_after_one_cycle_example :
  let cfg := {| test_url := "https://example.com/";
                expected_status := 200;
                retries := 2;
                timeout_seconds := Sample.ten;
                retry_delay_seconds := Sample.two;
                interval_minutes := 0;
                targets := [Sample.target (Some "edge")] |} in
  let w := Sample.world [Responded 200 950] in
  exists n δ,
    run cfg (fun _ => [O; O]) false 7 w
    = Some (inr tt, advance n 1 (Log INFO "Starting check cycle" [] :: δ) w)
    /\ Forall (retry_delay cfg) (sleeps δ).
Proof.
  intros cfg w.
  destruct (run_ends_after_one_cycle cfg (fun _ => [O; O]) false 6 w)
    as (n & δ & Hrun & _ & Hs).
  - simpl. lia.
  - exists n, δ. split; [exact Hrun|exact Hs].
Defined.

Lemma load_config_raises_iff_example :
  let ftp :=
    Sample.document (JInt 3)
      [Sample.good_entry; Sample.entry "FTP://10.0.0.1:21" "https://kuma.example/api/push/def"] in
  let none := Sample.document (JInt 3) [] in
  (exists e, load_config (JObj ftp) = Raised e)
  /\ (exists e, load_config (JObj none) = Raised e).
Proof.
  intros ftp none. split.
  - destruct (load_config_raises_iff ftp) as (_ & Hlisted & _).
    + vm_compute. reflexivity.
    + apply Hlisted. vm_compute. reflexivity.
  - destruct (load_config_raises_iff none) as (_ & Hlisted & _).
    + vm_compute. reflexivity.
    + apply Hlisted. vm_compute. reflexivity.
Defined.

(** A document with every required field, one well-formed target with an
    allowed scheme, and a word where the number of retries is expected:
    none of the listed conditions holds, and [load_config] raises the
    [ValueError] of [int()]. *)
Lemma a_word_for_retries_is_rejected :
  let raw := Sample.document (JStr "three") [Sample.good_entry] in
  shaped raw = true
  /\ listed raw = false
  /\ load_config (JObj raw)
     = Raised (ValueError "invalid literal for int() with base 10: 'three'")
  /\ ~ ((exists e, load_config (JObj raw) = Raised e) <-> listed raw = true).
Proof.
  intros raw.
  assert (Hshape : shaped raw = true) by (vm_compute; reflexivity).
  assert (Hlisted : listed raw = false) by (vm_compute; reflexivity).
  assert (Hload : load_config (JObj raw)
                  = Raised (ValueError "invalid literal for int() with base 10: 'three'"))
    by (vm_compute; reflexivity).
  repeat split; try assumption.
  intros [Hif _]. rewrite Hif in Hlisted; [discriminate|eauto].
Qed.

Lemma retries_below_one_load_and_fail_example :
  let raw := Sample.document (JInt 3) [Sample.good_entry] in
  let w := Sample.world [Responded 200 950] in
  load_config (JObj (<["retries" := JInt 0]> raw)) = Loaded (Sample.config 0)
  /\ trace (snd (check_target (Sample.config 0) (Sample.target None) w))
     = [ Log ERROR "FAILED : %s : Proxy failed after retries %s"
             [VStr "socks5://10.0.0.1:1080"; VStr "socks5://10.0.0.1:1080"];
         PushGet "https://kuma.example/api/push/abc"
           [ ("status", VStr "down");
             ("msg", VStr "FAILED : socks5://10.0.0.1:1080 : FAILED");
             ("ping", VStr EmptyString) ];
         Log INFO "Push sent → %s" [VStr "down"] ].
Proof.
  intros raw w.
  destruct (retries_below_one_load_and_fail raw (Sample.config 3) 0
              (Sample.target None) w) as (Hload & _ & _ & _ & Hchk).
  - vm_compute. reflexivity.
  - lia.
  - split; [exact Hload|].
    change (Sample.config 0) with (with_retries 0 (Sample.config 3)).
    rewrite Hchk. reflexivity.
Defined.

Lemma missing_field_is_named_example :
  load_config (JObj (delete "retries" (Sample.document (JInt 3) [Sample.good_entry])))
  = Raised (ValueError "Missing config field: retries").
Proof.
  apply (missing_field_is_named _ ["test_url"; "expected_status"] "retries"
           ["timeout_seconds"; "retry_delay_seconds"; "interval_minutes"; "targets"]).
  - reflexivity.
  - vm_compute. reflexivity.
  - vm_compute. reflexivity.
Defined.

Lemma target_without_field_is_rejected_example :
  load_config
    (JObj (Sample.document (JInt 3)
             [Sample.good_entry; JObj {[ "proxy" := JStr "http://10.0.0.2:3128" ]}]))
  = Raised (ValueError "Each target must contain proxy and push_url").
Proof.
  apply (target_without_field_is_rejected _ [Sample.good_entry]
           {[ "proxy" := JStr "http://10.0.0.2:3128" ]} [] [Sample.target None]).
  - vm_compute. reflexivity.
  - vm_compute. reflexivity.
  - vm_compute. reflexivity.
  - right. vm_compute. reflexivity.
Defined.

Lemma unsupported_scheme_is_reported_example :
  load_config
    (JObj (Sample.document (JInt 3)
             [Sample.good_entry;
              Sample.entry "ftp://10.0.0.1:21" "https://kuma.example/api/push/def"]))
  = Raised (ValueError "Unsupported proxy scheme: ftp://10.0.0.1:21").
Proof.
  apply (unsupported_scheme_is_reported _ [Sample.good_entry]
           {[ "proxy" := JStr "ftp://10.0.0.1:21";
              "push_url" := JStr "https://kuma.example/api/push/def" ]}
           [] [Sample.target None] "ftp://10.0.0.1:21" "ftp").
  - vm_compute. reflexivity.
  - vm_compute. reflexivity.
  - vm_compute. reflexivity.
  - vm_compute. reflexivity.
  - vm_compute. eauto.
  - vm_compute. reflexivity.
  - apply (bool_decide_eq_false_1 (lower "ftp" ∈ ALLOWED_PROXY_SCHEMES)).
    vm_compute. reflexivity.
Defined.

Lemma loaded_targets_mirror_the_document_example :
  exists items,
    Sample.document (JInt 3) [Sample.good_entry] !! "targets" = Some (JArr items)
    /\ items <> []
    /\ Forall2 mirrors items (targets (Sample.config 3)).
Proof.
  apply loaded_targets_mirror_the_document. vm_compute. reflexivity.
Defined.

Lemma loaded_targets_are_valid_example :
  Forall (fun t =>
            allowed_scheme (proxy t)
            /\ clean_remark t
            /\ identifier t = default (proxy t) (remark t))
         (targets (Sample.config 3)).
Proof.
  apply (loaded_targets_are_valid (Sample.document (JInt 3) [Sample.good_entry])).
  - vm_compute. reflexivity.
  - vm_compute. reflexivity.
Defined.

Lemma loaded_numbers_are_the_documents_example :
  let raw := Sample.document (JBool true) [Sample.good_entry] in
  load_config (JObj raw) = Loaded (Sample.config 1)
  /\ retries (Sample.config 1) = 1
  /\ expected_status (Sample.config 1) = 200
  /\ load_config (JObj (<["retries" := JBool false]> raw))
     = Loaded (Sample.config 0).
Proof.
  intros raw.
  assert (Hload : load_config (JObj raw) = Loaded (Sample.config 1))
    by (vm_compute; reflexivity).
  destruct (loaded_numbers_are_the_documents raw (Sample.config 1) Hload)
    as (_ & Hstatus & _ & _ & _ & _ & Hretries & Hbool).
  split; [exact Hload|]. split; [|split].
  - apply (Hretries true). vm_compute. reflexivity.
  - apply Hstatus. vm_compute. reflexivity.
  - exact (Hbool false).
Defined.

Lemma unread_keys_change_nothing_example :
  let raw := Sample.document (JInt 3) [Sample.good_entry] in
  load_config (JObj (<["comment" := JStr "lab proxies"]> raw))
  = load_config (JObj raw).
Proof.
  intros raw.
  destruct (unread_keys_change_nothing raw "comment" (JStr "lab proxies"))
    as [Hins _].
  - simpl. intuition discriminate.
  - exact Hins.
Defined.

Lemma blank_remark_is_no_remark_example :
  let entry : gmap string json :=
    {[ "proxy" := JStr "socks5://10.0.0.1:1080";
       "push_url" := JStr "https://kuma.example/api/push/abc" ]} in
  load_target (JObj (<["remark" := JStr "   "]> entry))
  = load_target (JObj (delete "remark" entry)).
Proof.
  intros entry.
  destruct (blank_remark_is_no_remark entry "   ") as [Hblank _].
  - reflexivity.
  - exact Hblank.
Defined.

Lemma driver_reads_only_its_replies_example :
  let w1 := Sample.world [Responded 503 12; Responded 200 950] in
  let w2 := Sample.world [Responded 503 12; Responded 200 950; Responded 500 7] in
  exists r k δ,
    test_with_retries (Sample.config 2) "socks5://10.0.0.1:1080" "edge" w1
    = (inr r, advance k 0 δ w1)
    /\ test_with_retries (Sample.config 2) "socks5://10.0.0.1:1080" "edge" w2
       = (inr r, advance k 0 δ w2).
Proof.
  intros w1 w2.
  apply driver_reads_only_its_replies.
  intros i Hi. simpl in Hi.
  destruct i as [|[|i]]; [reflexivity|reflexivity|lia].
Defined.

Lemma run_never_ends_example :
  run (Sample.config 3) (fun _ => [O]) false 5 (Sample.world [Responded 200 950])
  = None.
Proof.
  destruct (run_never_ends (Sample.config 3) (fun _ => [O]) (Sample.world []))
    as [Hnone _].
  - simpl. lia.
  - vm_compute. reflexivity.
  - apply Hnone.
Defined.

